(** * container-diff: the directory and package diff engines

    A shallow embedding of [utils/fs_utils.go] and
    [differs/package_differs.go], and the properties their
    specification states about them.

    The Go code talks to the operating system ([os.Stat],
    [ioutil.ReadFile], [filepath.Walk]) and to a logger.  The file
    system is modelled as a read-only function from paths to nodes, and
    every call that reaches it is recorded in a trace, so that
    statements such as "no content is read" can be made about the code
    that runs. *)

From Stdlib Require Import ZArith String Ascii List.
From Stdlib.Strings Require Import Byte.
From stdpp Require Import base tactics option list sorting strings gmap.

Set Warnings "-register-all,-clear-no-such-hyp".

Open Scope Z_scope.

(** ** Go values *)

(** The [error] interface.  [SkipDir] is the sentinel of
    [path/filepath]; the operating system only ever produces
    [PathError]s, analyzers produce whatever they like. *)
Inductive error : Type :=
  | SkipDir
  | PathError (msg : string)
  | errorString (msg : string).

Definition Error (e : error) : string :=
  match e with
  | SkipDir => "skip this directory"
  | PathError msg => msg
  | errorString msg => msg
  end.

Definition is_SkipDir (e : error) : bool :=
  match e with SkipDir => true | _ => false end.

(** A call that returns [(value, err)] with the value meaningless when
    [err != nil]. *)
Inductive result (A : Type) : Type :=
  | Ok (a : A)
  | Err (e : error).
Arguments Ok {A} a.
Arguments Err {A} e.

(** [int64] arithmetic wraps around. *)
Definition wrap64 (z : Z) : Z := (z + 2 ^ 63) mod 2 ^ 64 - 2 ^ 63.

Definition int64_add (a b : Z) : Z := wrap64 (a + b).

(** [os.FileInfo], as far as the code looks at it. *)
Module FileInfo.
Record t : Type := mk { IsDir : bool; Size : Z }.
End FileInfo.

(** ** The file system *)

(** What a path names: nothing that can be stat-ed ([Missing], with the
    message of the error), a regular file with its stat size and what
    reading it yields, a directory with its own stat size, the error
    of listing it (if any) and its entries in the order
    [filepath.Walk] visits them, or a symbolic link with the size
    [os.Lstat] gives for the link itself and what the link leads to
    ([Missing] when it dangles). *)
Inductive node : Type :=
  | Missing (msg : string)
  | File (size : Z) (content : result (list byte))
  | Folder (size : Z) (listing : option string) (children : list (string * node))
  | Link (size : Z) (target : node).

(** [os.Lstat] does not follow a link: a link is not a directory. *)
Definition lstat (n : node) : result FileInfo.t :=
  match n with
  | Missing msg => Err (PathError msg)
  | File size _ => Ok (FileInfo.mk false size)
  | Folder size _ _ => Ok (FileInfo.mk true size)
  | Link size _ => Ok (FileInfo.mk false size)
  end.

(** What a path leads to, links followed. *)
Fixpoint follow (n : node) : node :=
  match n with
  | Link _ target => follow target
  | _ => n
  end.

(** [os.Stat] follows links, and so does reading. *)
Definition stat (n : node) : result FileInfo.t := lstat (follow n).

Definition read (n : node) : result (list byte) :=
  match follow n with
  | Missing msg => Err (PathError msg)
  | File _ content => content
  | Folder _ _ _ => Err (PathError "is a directory")
  | Link _ _ => Err (PathError "too many levels of symbolic links")
  end.

(** ** Effects: a trace of what the code asked of its environment *)

Inductive event : Type :=
  | EvStat (path : string)
  | EvReadFile (path : string)
  | EvWalk (path : string)
  | EvLog (msg : string).

(** A Go call either returns or panics. *)
Inductive outcome (A : Type) : Type :=
  | Return (a : A)
  | Panic (msg : string).
Arguments Return {A} a.
Arguments Panic {A} msg.

Definition IO (A : Type) : Type := (outcome A * list event)%type.

Definition ret {A} (a : A) : IO A := (Return a, []).

Definition bind {A B} (m : IO A) (k : A -> IO B) : IO B :=
  match m with
  | (Return a, t) => let (r, t') := k a in (r, t ++ t')
  | (Panic msg, t) => (Panic msg, t)
  end.

Definition emit (e : event) : IO unit := (Return tt, [e]).

Definition value {A} (m : IO A) : outcome A := fst m.
Definition trace {A} (m : IO A) : list event := snd m.

#[global] Instance IO_ret : MRet IO := @ret.
#[global] Instance IO_bind : MBind IO := fun A B k m => bind m k.

(** [glog.Errorf]: the formatted line goes to the log. *)
Definition glog_Errorf (line : string) : IO unit := emit (EvLog line).

Definition newline : string := String (Ascii.ascii_of_nat 10) "".

(** A nil interface value whose method is called. *)
Definition nil_dereference : string :=
  "runtime error: invalid memory address or nil pointer dereference".

(** ** Records of [fs_utils.go] *)

Record Directory : Type := mkDirectory { Root : string; Content : list string }.

Record DirectoryEntry : Type := mkDirectoryEntry { Name : string; Size : Z }.

Module EntryDiff.
Record t : Type := mk { Name : string; Size1 : Z; Size2 : Z }.
End EntryDiff.

Record DirDiff : Type := mkDirDiff {
  Adds : list DirectoryEntry;
  Dels : list DirectoryEntry;
  Mods : list EntryDiff.t
}.

(** [sort.Strings] leaves the slice in increasing byte-wise order; the
    sorted arrangement of a list of strings is unique, so any sorting
    function models it. *)
Definition sort_Strings (l : list string) : list string := merge_sort String.le l.

#[global] Instance byte_eq_dec : EqDecision byte := Byte.byte_eq_dec.

(** [bytes.Equal]. *)
Definition bytes_Equal (a b : list byte) : bool := bool_decide (a = b).

(** Every entry below [n] can be stat-ed (a link always can, wherever
    it leads). *)
Fixpoint no_missing (n : node) : bool :=
  match n with
  | Missing _ => false
  | File _ _ => true
  | Folder _ _ children => forallb (fun c => no_missing (snd c)) children
  | Link _ _ => true
  end.

(** Every directory below [n] can be listed and every entry stat-ed. *)
Fixpoint readable (n : node) : bool :=
  match n with
  | Missing _ => false
  | File _ _ => true
  | Folder _ listing children =>
      match listing with Some _ => false | None => true end &&
      forallb (fun c => readable (snd c)) children
  | Link _ _ => true
  end.

(** The sizes of the non-directory descendants of [n], added up;
    directories contribute nothing, and a link its own size. *)
Fixpoint tree_size (n : node) : Z :=
  match n with
  | Missing _ => 0
  | File size _ => size
  | Folder _ _ children => foldr (fun c acc => tree_size (snd c) + acc) 0 children
  | Link size _ => size
  end.

(** The walk of [GetSize] cannot meet an entry it cannot stat: a path
    that cannot be stat-ed itself is fine. *)
Definition walkable (fs : string -> node) : Prop :=
  forall path, match fs path with
               | Missing _ => True
               | n => no_missing n = true
               end.


Section FileSystem.

(** The state of the disk while the code runs. *)
Variable fs : string -> node.

(** [filepath.Join]; nothing below looks inside the path it builds. *)
Variable filepath_Join : string -> string -> string.

(** [isTar] lives in a file of the package that is not part of this
    development: it recognises tar archives by their file name. *)
Variable isTar : string -> bool.

(** The set-difference primitives of the package, also defined
    elsewhere. *)
Variable GetMatches GetAdditions GetDeletions : list string -> list string -> list string.

Definition os_Stat (path : string) : IO (result FileInfo.t) :=
  emit (EvStat path);; ret (stat (fs path)).

Definition ioutil_ReadFile (path : string) : IO (result (list byte)) :=
  emit (EvReadFile path);; ret (read (fs path)).

(** *** [filepath.Walk]

    The walk function receives the path, the [FileInfo] (nil when the
    entry could not be stat-ed) and the error met on the way; it owns
    some state [S] (the variables its closure captures), returns an
    error to stop the walk, and may panic.  It is called once for
    every entry, for a directory with the error of listing it when
    there is one; entries are stat-ed without following links, so a
    link is walked as a non-directory and not entered. *)
Section Walk.
Context {S : Type}.
Variable walkFn : string -> option FileInfo.t -> option error -> S -> outcome (option error * S).

Fixpoint walk (path : string) (n : node) (s : S) {struct n} : outcome (option error * S) :=
  match n with
  | Missing msg => walkFn path None (Some (PathError msg)) s
  | File size _ | Link size _ => walkFn path (Some (FileInfo.mk false size)) None s
  | Folder size listing children =>
      let info := FileInfo.mk true size in
      match listing with
      | Some msg => walkFn path (Some info) (Some (PathError msg)) s
      | None =>
          match walkFn path (Some info) None s with
          | Panic msg => Panic msg
          | Return (Some err, s) => Return (Some err, s)
          | Return (None, s) =>
              (fix loop (names : list (string * node)) (s : S) : outcome (option error * S) :=
                 match names with
                 | [] => Return (None, s)
                 | (name, child) :: names =>
                     let filename := filepath_Join path name in
                     match child with
                     | Missing msg =>
                         match walkFn filename None (Some (PathError msg)) s with
                         | Panic msg => Panic msg
                         | Return (Some err, s) =>
                             if is_SkipDir err then loop names s else Return (Some err, s)
                         | Return (None, s) => loop names s
                         end
                     | File _ _ | Link _ _ =>
                         match walk filename child s with
                         | Panic msg => Panic msg
                         | Return (Some err, s) => Return (Some err, s)
                         | Return (None, s) => loop names s
                         end
                     | Folder _ _ _ =>
                         match walk filename child s with
                         | Panic msg => Panic msg
                         | Return (Some err, s) =>
                             if is_SkipDir err then loop names s else Return (Some err, s)
                         | Return (None, s) => loop names s
                         end
                     end
                 end) children s
          end
      end
  end.

Definition Walk (root : string) (s : S) : outcome (option error * S) :=
  match walk root (fs root) s with
  | Panic msg => Panic msg
  | Return (Some err, s) =>
      if is_SkipDir err then Return (None, s) else Return (Some err, s)
  | Return (None, s) => Return (None, s)
  end.

Definition filepath_Walk (root : string) (s : S) : IO (option error * S) :=
  (Walk root s, [EvWalk root]).
End Walk.

(** *** [GetSize] and [getDirectorySize] *)

(** The closure handed to [filepath.Walk]; [size] is the variable it
    captures.  [info.IsDir()] is called before [err] is looked at. *)
Definition getDirectorySize_walkFn
    (_ : string) (info : option FileInfo.t) (err : option error) (size : Z)
    : outcome (option error * Z) :=
  match info with
  | None => Panic nil_dereference
  | Some info =>
      let size := if negb (FileInfo.IsDir info)
                  then int64_add size (FileInfo.Size info) else size in
      Return (err, size)
  end.

Definition getDirectorySize (path : string) : IO (Z * option error) :=
  '(err, size) ← filepath_Walk getDirectorySize_walkFn path 0;
  ret (size, err).

Definition GetSize (path : string) : IO Z :=
  stat ← os_Stat path;
  match stat with
  | Err err =>
      glog_Errorf ("Could not obtain size for " +:+ path +:+ ": " +:+ Error err);;
      ret (-1)
  | Ok stat =>
      if FileInfo.IsDir stat then
        '(size, err) ← getDirectorySize path;
        match err with
        | Some err =>
            glog_Errorf ("Could not obtain directory size for " +:+ path +:+ ": " +:+ Error err)
        | None => ret tt
        end;;
        ret size
      else ret (FileInfo.Size stat)
  end.

(** *** [checkSameFile] *)

Definition checkSameFile (f1name f2name : string) : IO (bool * option error) :=
  f1stat ← os_Stat f1name;
  match f1stat with
  | Err err => ret (false, Some err)
  | Ok f1stat =>
      f2stat ← os_Stat f2name;
      match f2stat with
      | Err err => ret (false, Some err)
      | Ok f2stat =>
          if negb (FileInfo.Size f1stat =? FileInfo.Size f2stat) then ret (false, None)
          else
            f1 ← ioutil_ReadFile f1name;
            match f1 with
            | Err err => ret (false, Some err)
            | Ok f1 =>
                f2 ← ioutil_ReadFile f2name;
                match f2 with
                | Err err => ret (false, Some err)
                | Ok f2 =>
                    if negb (bytes_Equal f1 f2) then ret (false, None)
                    else ret (true, None)
                end
            end
      end
  end.

(** *** [GetModifiedEntries] *)

(** A [for _, x := range l] loop whose body updates the variables
    [acc]; [continue] is the body returning. *)
Fixpoint for_range {A B} (body : B -> A -> IO B) (l : list A) (acc : B) : IO B :=
  match l with
  | [] => ret acc
  | x :: l => acc ← body acc x; for_range body l acc
  end.

Definition checking_entry (f : string) (err : error) : string :=
  "Error checking directory entry " +:+ f +:+ ": " +:+ Error err +:+ newline.

Definition diffing_contents (f1path f2path : string) (err : error) : string :=
  "Error diffing contents of " +:+ f1path +:+ " and " +:+ f2path +:+ ": "
    +:+ Error err +:+ newline.

(** The body of the loop over [filematches]; [modified] is the slice
    it appends to. *)
Definition GetModifiedEntries_body (d1 d2 : Directory)
    (modified : list string) (f : string) : IO (list string) :=
  let f1path := Root d1 +:+ f in
  let f2path := Root d2 +:+ f in
  f1stat ← os_Stat f1path;
  match f1stat with
  | Err err => glog_Errorf (checking_entry f err);; ret modified
  | Ok f1stat =>
      f2stat ← os_Stat f2path;
      match f2stat with
      | Err err => glog_Errorf (checking_entry f err);; ret modified
      | Ok f2stat =>
          if isTar f1path then
            if negb (FileInfo.Size f1stat =? FileInfo.Size f2stat)
            then ret (modified ++ [f])
            else ret modified
          else if negb (FileInfo.IsDir f1stat) then
            '(same, err) ← checkSameFile f1path f2path;
            match err with
            | Some err => glog_Errorf (diffing_contents f1path f2path err);; ret modified
            | None => if negb same then ret (modified ++ [f]) else ret modified
            end
          else ret modified
      end
  end.

Definition GetModifiedEntries (d1 d2 : Directory) : IO (list string) :=
  let d1files := Content d1 in
  let d2files := Content d2 in
  let filematches := GetMatches d1files d2files in
  for_range (GetModifiedEntries_body d1 d2) filematches [].

Definition GetAddedEntries (d1 d2 : Directory) : list string :=
  GetAdditions (Content d1) (Content d2).

Definition GetDeletedEntries (d1 d2 : Directory) : list string :=
  GetDeletions (Content d1) (Content d2).

(** *** Entries with their sizes *)

Definition createDirectoryEntries (root : string) (entryNames : list string)
    : IO (list DirectoryEntry) :=
  for_range (fun entries name =>
    let entryPath := filepath_Join root name in
    size ← GetSize entryPath;
    let entry := {| Name := name; Size := size |} in
    ret (entries ++ [entry])) entryNames [].


Definition createEntryDiffs (root1 root2 : string) (entryNames : list string)
    : IO (list EntryDiff.t) :=
  for_range (fun entries name =>
    let entryPath1 := filepath_Join root1 name in
    size1 ← GetSize entryPath1;
    let entryPath2 := filepath_Join root2 name in
    size2 ← GetSize entryPath2;
    let entry := {| EntryDiff.Name := name; EntryDiff.Size1 := size1;
                    EntryDiff.Size2 := size2 |} in
    ret (entries ++ [entry])) entryNames [].

(** *** [DiffDirectory] *)

Definition DiffDirectory (d1 d2 : Directory) : IO (DirDiff * bool) :=
  let adds := GetAddedEntries d1 d2 in
  let adds := sort_Strings adds in
  addedEntries ← createDirectoryEntries (Root d2) adds;
  let dels := GetDeletedEntries d1 d2 in
  let dels := sort_Strings dels in
  deletedEntries ← createDirectoryEntries (Root d1) dels;
  mods ← GetModifiedEntries d1 d2;
  let mods := sort_Strings mods in
  modifiedEntries ← createEntryDiffs (Root d1) (Root d2) mods;
  let same :=
    if (length adds =? 0)%nat && (length dels =? 0)%nat && (length mods =? 0)%nat
    then true else false in
  ret (mkDirDiff addedEntries deletedEntries modifiedEntries, same).

(** *** Pure readings of the code, used to state its properties *)

(** What [checkSameFile] returns, without the trace. *)
Definition same_file (f1name f2name : string) : bool * option error :=
  match stat (fs f1name), stat (fs f2name) with
  | Err err, _ => (false, Some err)
  | Ok _, Err err => (false, Some err)
  | Ok f1stat, Ok f2stat =>
      if FileInfo.Size f1stat =? FileInfo.Size f2stat then
        match read (fs f1name), read (fs f2name) with
        | Err err, _ => (false, Some err)
        | Ok _, Err err => (false, Some err)
        | Ok f1, Ok f2 => (bytes_Equal f1 f2, None)
        end
      else (false, None)
  end.

(** Whether the loop body of [GetModifiedEntries] appends [f]. *)
Definition entry_modified (d1 d2 : Directory) (f : string) : bool :=
  let f1path := Root d1 +:+ f in
  let f2path := Root d2 +:+ f in
  match stat (fs f1path), stat (fs f2path) with
  | Ok f1stat, Ok f2stat =>
      if isTar f1path then negb (FileInfo.Size f1stat =? FileInfo.Size f2stat)
      else if FileInfo.IsDir f1stat then false
      else match same_file f1path f2path with
           | (same, None) => negb same
           | (_, Some _) => false
           end
  | _, _ => false
  end.


(** The entry [createDirectoryEntries] appends for a name, and the one
    [createEntryDiffs] appends. *)
Definition directory_entry (root name : string) : outcome DirectoryEntry :=
  match value (GetSize (filepath_Join root name)) with
  | Return size => Return {| Name := name; Size := size |}
  | Panic msg => Panic msg
  end.

Definition entry_diff (root1 root2 name : string) : outcome EntryDiff.t :=
  match value (GetSize (filepath_Join root1 name)) with
  | Return size1 =>
      match value (GetSize (filepath_Join root2 name)) with
      | Return size2 =>
          Return {| EntryDiff.Name := name; EntryDiff.Size1 := size1;
                    EntryDiff.Size2 := size2 |}
      | Panic msg => Panic msg
      end
  | Panic msg => Panic msg
  end.

End FileSystem.

(** ** The set-difference primitive *)

(** Modelled from the spec: [GetMatches], [GetAdditions] and
    [GetDeletions] are defined in a file of the package that is not
    part of this development.  The specification gives their contract:
    of two sequences [A] (old) and [B] (new), the elements present in
    both, those present in [B] but not in [A], and those present in [A]
    but not in [B]. *)
Definition Matches (A B : list string) : list string :=
  filter (fun x => x ∈ B) A.

(** Modelled from the spec: the additions of [GetAdditions], see
    [Matches]. *)
Definition Additions (A B : list string) : list string :=
  filter (fun x => x ∉ A) B.

(** Modelled from the spec: the deletions of [GetDeletions], see
    [Matches]. *)
Definition Deletions (A B : list string) : list string :=
  filter (fun x => x ∉ B) A.

(** ** [GetDirectory] *)

(** [strings.HasPrefix] and [strings.TrimPrefix]. *)
Definition strings_HasPrefix (s prefix : string) : bool :=
  (String.length prefix <=? String.length s)%nat &&
  String.eqb (String.substring 0 (String.length prefix) s) prefix.

Definition strings_TrimPrefix (s prefix : string) : string :=
  if strings_HasPrefix s prefix
  then String.substring (String.length prefix)
                        (String.length s - String.length prefix) s
  else s.

(** [ioutil.ReadDir] on what a path names: the names of a directory
    with their [FileInfo], in increasing order of name, which is the
    order of [children].  The path is opened through links; every
    listed name is stat-ed without following links, and the first one
    that cannot be fails the listing. *)
Fixpoint lstat_all (children : list (string * node)) : result (list (string * FileInfo.t)) :=
  match children with
  | [] => Ok []
  | (name, child) :: children =>
      match lstat child with
      | Err err => Err err
      | Ok info =>
          match lstat_all children with
          | Err err => Err err
          | Ok infos => Ok ((name, info) :: infos)
          end
      end
  end.

Definition ioutil_ReadDir (n : node) : result (list (string * FileInfo.t)) :=
  match follow n with
  | Missing msg => Err (PathError msg)
  | File _ _ => Err (PathError "not a directory")
  | Folder _ (Some msg) _ => Err (PathError msg)
  | Folder _ None children => lstat_all children
  | Link _ _ => Err (PathError "too many levels of symbolic links")
  end.

(** The closure that the deep listing hands to [filepath.Walk]:
    [content] is [directory.Content], which it appends to, and [root]
    is [directory.Root].  It looks at neither [info] nor [err]. *)
Definition GetDirectory_walkFn (root : string)
    (currPath : string) (info : option FileInfo.t) (err : option error)
    (content : list string) : outcome (option error * list string) :=
  let newContent := strings_TrimPrefix currPath root in
  let content := if negb (String.eqb newContent "")
                 then content ++ [newContent] else content in
  Return (None, content).

(** [GetDirectory] is given as the value it returns (or the panic it
    ends in) on a disk; the calls by which it lists the disk are not
    traced. *)
Definition GetDirectory (fs : string -> node) (filepath_Join : string -> string -> string)
    (path : string) (deep : bool) : outcome (Directory * option error) :=
  if deep then
    match Walk fs filepath_Join (GetDirectory_walkFn path) path [] with
    | Panic msg => Panic msg
    | Return (err, content) => Return ({| Root := path; Content := content |}, err)
    end
  else
    match ioutil_ReadDir (fs path) with
    | Err err => Return ({| Root := path; Content := [] |}, Some err)
    | Ok contents =>
        let content :=
          foldl (fun content file =>
                   let fileName := "/" +:+ fst file in content ++ [fileName])
                [] contents in
        Return ({| Root := path; Content := content |}, None)
    end.

(** The paths, relative to the root of the walk, of what lies below
    [n], in the order of the walk; [rel] is the relative path of [n]
    itself. *)
Fixpoint descendants (rel : string) (n : node) : list string :=
  match n with
  | Folder _ _ children =>
      concat (map (fun c => (rel +:+ "/" +:+ fst c)
                              :: descendants (rel +:+ "/" +:+ fst c) (snd c))
                  children)
  | _ => []
  end.

(** On the directories of the tree [n] at [path], [filepath.Join] of a
    directory and a name is the two with a separator in between (as it
    is for a clean path and a file name). *)
Fixpoint join_separates (filepath_Join : string -> string -> string)
    (path : string) (n : node) : bool :=
  match n with
  | Folder _ _ children =>
      forallb (fun c => String.eqb (filepath_Join path (fst c)) (path +:+ "/" +:+ fst c) &&
                        join_separates filepath_Join (path +:+ "/" +:+ fst c) (snd c))
              children
  | _ => true
  end.


(** A join for trees: a separator between a directory and a name. *)
Definition separator_Join (path name : string) : string := path +:+ "/" +:+ name.

(** ** [package_differs.go] *)

(** [strings.HasSuffix] and [strings.TrimSuffix]. *)
Definition strings_HasSuffix (s suffix : string) : bool :=
  (String.length suffix <=? String.length s)%nat &&
  String.eqb (String.substring (String.length s - String.length suffix)
                               (String.length suffix) s) suffix.

Definition strings_TrimSuffix (s suffix : string) : string :=
  if strings_HasSuffix s suffix
  then String.substring 0 (String.length s - String.length suffix) s
  else s.

Section PackageDiffers.

(** [utils.Image], [utils.PackageInfo] and the two diff structures are
    declared elsewhere in the repository; of an image only its
    [Source] is used, and of the diff structures their zero value. *)
Context {Image PackageInfo PackageDiff MultiVersionPackageDiff : Type}.
Variable Source : Image -> string.
Variable PackageDiff_zero : PackageDiff.
Variable MultiVersionPackageDiff_zero : MultiVersionPackageDiff.

(** [utils.GetMapDiff] and [utils.GetMultiVersionMapDiff], defined
    elsewhere. *)
Variable GetMapDiff :
  gmap string PackageInfo -> gmap string PackageInfo -> PackageDiff.
Variable GetMultiVersionMapDiff :
  gmap string (gmap string PackageInfo) -> gmap string (gmap string PackageInfo) ->
  MultiVersionPackageDiff.

(** What the methods of an analyzer may touch and change. *)
Context {World : Type}.

Definition Eff (A : Type) : Type := World -> A * World.

Record MultiVersionPackageAnalyzer : Type := {
  mv_getPackages : Image -> Eff (gmap string (gmap string PackageInfo) * option error);
  mv_Name : Eff string
}.

Record SingleVersionPackageAnalyzer : Type := {
  sv_getPackages : Image -> Eff (gmap string PackageInfo * option error);
  sv_Name : Eff string
}.

Record MultiVersionPackageDiffResult : Type := mkMultiVersionPackageDiffResult {
  mv_Image1 : string;
  mv_Image2 : string;
  mv_DiffType : string;
  mv_Diff : MultiVersionPackageDiff
}.

Record SingleVersionPackageDiffResult : Type := mkSingleVersionPackageDiffResult {
  sv_Image1 : string;
  sv_Image2 : string;
  sv_DiffType : string;
  sv_Diff : PackageDiff
}.

(** The composite literals [&utils.MultiVersionPackageDiffResult{}]
    and [&utils.SingleVersionPackageDiffResult{}]: every field has
    the zero value of its type. *)
Definition MultiVersionPackageDiffResult_zero : MultiVersionPackageDiffResult :=
  mkMultiVersionPackageDiffResult "" "" "" MultiVersionPackageDiff_zero.

Definition SingleVersionPackageDiffResult_zero : SingleVersionPackageDiffResult :=
  mkSingleVersionPackageDiffResult "" "" "" PackageDiff_zero.

(** The result is a pointer: [None] is nil. *)
Definition multiVersionDiff (image1 image2 : Image) (differ : MultiVersionPackageAnalyzer)
    : Eff (option MultiVersionPackageDiffResult * option error) :=
  fun w =>
  let '((pack1, err), w) := mv_getPackages differ image1 w in
  match err with
  | Some err => ((Some MultiVersionPackageDiffResult_zero, Some err), w)
  | None =>
      let '((pack2, err), w) := mv_getPackages differ image2 w in
      match err with
      | Some err => ((Some MultiVersionPackageDiffResult_zero, Some err), w)
      | None =>
          let diff := GetMultiVersionMapDiff pack1 pack2 in
          let '(name, w) := mv_Name differ w in
          ((Some {| mv_Image1 := Source image1;
                    mv_Image2 := Source image2;
                    mv_DiffType := strings_TrimSuffix name "Analyzer";
                    mv_Diff := diff |}, None), w)
      end
  end.

Definition singleVersionDiff (image1 image2 : Image) (differ : SingleVersionPackageAnalyzer)
    : Eff (option SingleVersionPackageDiffResult * option error) :=
  fun w =>
  let '((pack1, err), w) := sv_getPackages differ image1 w in
  match err with
  | Some err => ((Some SingleVersionPackageDiffResult_zero, Some err), w)
  | None =>
      let '((pack2, err), w) := sv_getPackages differ image2 w in
      match err with
      | Some err => ((Some SingleVersionPackageDiffResult_zero, Some err), w)
      | None =>
          let diff := GetMapDiff pack1 pack2 in
          let '(name, w) := sv_Name differ w in
          ((Some {| sv_Image1 := Source image1;
                    sv_Image2 := Source image2;
                    sv_DiffType := strings_TrimSuffix name "Analyzer";
                    sv_Diff := diff |}, None), w)
      end
  end.

(** *** The single-image analyses *)

Record MultiVersionPackageAnalyzeResult : Type := mkMultiVersionPackageAnalyzeResult {
  mv_Image : string;
  mv_AnalyzeType : string;
  mv_Analysis : gmap string (gmap string PackageInfo)
}.

Record SingleVersionPackageAnalyzeResult : Type := mkSingleVersionPackageAnalyzeResult {
  sv_Image : string;
  sv_AnalyzeType : string;
  sv_Analysis : gmap string PackageInfo
}.

(** [&utils.MultiVersionPackageAnalyzeResult{}] and its single-version
    twin: empty strings and a nil map. *)
Definition MultiVersionPackageAnalyzeResult_zero : MultiVersionPackageAnalyzeResult :=
  mkMultiVersionPackageAnalyzeResult "" "" ∅.

Definition SingleVersionPackageAnalyzeResult_zero : SingleVersionPackageAnalyzeResult :=
  mkSingleVersionPackageAnalyzeResult "" "" ∅.

Definition multiVersionAnalysis (image : Image) (analyzer : MultiVersionPackageAnalyzer)
    : Eff (option MultiVersionPackageAnalyzeResult * option error) :=
  fun w =>
  let '((pack, err), w) := mv_getPackages analyzer image w in
  match err with
  | Some err => ((Some MultiVersionPackageAnalyzeResult_zero, Some err), w)
  | None =>
      let '(name, w) := mv_Name analyzer w in
      let analysis := {| mv_Image := Source image;
                         mv_AnalyzeType := strings_TrimSuffix name "Analyzer";
                         mv_Analysis := pack |} in
      ((Some analysis, None), w)
  end.

Definition singleVersionAnalysis (image : Image) (analyzer : SingleVersionPackageAnalyzer)
    : Eff (option SingleVersionPackageAnalyzeResult * option error) :=
  fun w =>
  let '((pack, err), w) := sv_getPackages analyzer image w in
  match err with
  | Some err => ((Some SingleVersionPackageAnalyzeResult_zero, Some err), w)
  | None =>
      let '(name, w) := sv_Name analyzer w in
      let analysis := {| sv_Image := Source image;
                         sv_AnalyzeType := strings_TrimSuffix name "Analyzer";
                         sv_Analysis := pack |} in
      ((Some analysis, None), w)
  end.

End PackageDiffers.

(** An analyzer that also keeps the list of the images its
    [getPackages] was called with, next to the world it acts on. *)
Definition mv_recording {Image PackageInfo World : Type}
    (differ : @MultiVersionPackageAnalyzer Image PackageInfo World)
    : @MultiVersionPackageAnalyzer Image PackageInfo (World * list Image) :=
  {| mv_getPackages image := fun '(w, calls) =>
       let '(r, w) := mv_getPackages differ image w in (r, (w, calls ++ [image]));
     mv_Name := fun '(w, calls) =>
       let '(name, w) := mv_Name differ w in (name, (w, calls)) |}.

Definition sv_recording {Image PackageInfo World : Type}
    (differ : @SingleVersionPackageAnalyzer Image PackageInfo World)
    : @SingleVersionPackageAnalyzer Image PackageInfo (World * list Image) :=
  {| sv_getPackages image := fun '(w, calls) =>
       let '(r, w) := sv_getPackages differ image w in (r, (w, calls ++ [image]));
     sv_Name := fun '(w, calls) =>
       let '(name, w) := sv_Name differ w in (name, (w, calls)) |}.

(** ** Concrete disks, directories and analyzers *)

(** A disk given by the list of its paths. *)
Fixpoint disk (files : list (string * node)) (path : string) : node :=
  match files with
  | [] => Missing "no such file or directory"
  | (p, n) :: files => if String.eqb p path then n else disk files path
  end.

Definition disk_ok (files : list (string * node)) : bool :=
  forallb (fun pn => match snd pn with
                     | Missing _ => true
                     | n => no_missing n
                     end) files.

(** On a clean root and a name that starts with a separator,
    [filepath.Join] is concatenation. *)
Definition example_Join (root name : string) : string := root +:+ name.

(** An [isTar] that goes by the extension of the file name. *)
Definition example_isTar (path : string) : bool :=
  strings_HasSuffix path ".tar" || strings_HasSuffix path ".tar.gz" ||
  strings_HasSuffix path ".tgz".

Definition bytes (s : string) : list byte := String.list_byte_of_string s.

(** The directory scenario of the specification: [/a], [/b], [/c.tar]
    of sizes 10, 20, 100 against [/a], [/c.tar], [/d] of sizes 10, 100,
    30. *)
Definition scenario_disk : string -> node :=
  disk [("/img1/a", File 10 (Ok (bytes "0123456789")));
        ("/img1/b", File 20 (Ok (bytes "01234567890123456789")));
        ("/img1/c.tar", File 100 (Ok (repeat "a"%byte 100)));
        ("/img2/a", File 10 (Ok (bytes "0123456789")));
        ("/img2/c.tar", File 100 (Ok (repeat "b"%byte 100)));
        ("/img2/d", File 30 (Ok (repeat "d"%byte 30)))].

Definition scenario_d1 : Directory :=
  {| Root := "/img1"; Content := ["/a"; "/b"; "/c.tar"] |}.

Definition scenario_d2 : Directory :=
  {| Root := "/img2"; Content := ["/a"; "/c.tar"; "/d"] |}.

(** Two snapshots with one entry of every kind: an archive of the same
    size and other content, a file of the same size and other content,
    a file that cannot be read, a path that is gone from the second
    root, and a directory that has become a file. *)
Definition example_files : list (string * node) :=
  [("/old/etc", Folder 4096 None [("hosts", File 5 (Ok (bytes "hosts")))]);
   ("/old/etc/hosts", File 5 (Ok (bytes "hosts")));
   ("/old/layer.tar", File 7 (Ok (bytes "archive")));
   ("/old/motd", File 5 (Ok (bytes "hello")));
   ("/old/secret", File 3 (Err (PathError "permission denied")));
   ("/old/tmp", File 9 (Ok (bytes "temporary")));
   ("/old/var", Folder 4096 None []);
   ("/new/etc", Folder 4096 None [("hosts", File 5 (Ok (bytes "hosts")))]);
   ("/new/etc/hosts", File 5 (Ok (bytes "hosts")));
   ("/new/layer.tar", File 7 (Ok (bytes "ARCHIVE")));
   ("/new/motd", File 5 (Ok (bytes "howdy")));
   ("/new/secret", File 3 (Ok (bytes "key")));
   ("/new/var", File 5 (Ok (bytes "a log")));
   ("/new/opt", Folder 4096 None [("bin", Folder 4096 None [("tool", File 12 (Ok []))]);
                                  ("readme", File 30 (Ok []))])].

Definition example_disk : string -> node := disk example_files.

Definition example_d1 : Directory :=
  {| Root := "/old";
     Content := ["/etc"; "/etc/hosts"; "/layer.tar"; "/motd"; "/secret"; "/tmp"; "/var"] |}.

Definition example_d2 : Directory :=
  {| Root := "/new";
     Content := ["/etc"; "/etc/hosts"; "/layer.tar"; "/motd"; "/secret"; "/tmp"; "/var";
                 "/zz"; "/opt"] |}.

(** A directory whose walk meets a subdirectory that cannot be listed
    after one file and before another, and a directory that lists a
    name that cannot be stat-ed. *)
Definition unlistable_disk : string -> node :=
  disk [("/img/d", Folder 4096 None
                     [("a", File 5 (Ok (bytes "hello")));
                      ("b", Folder 4096 (Some "open /img/d/b: permission denied")
                              [("x", File 7 (Ok (bytes "private")))]);
                      ("c", File 11 (Ok (bytes "hello world")))]);
        ("/img/e", Folder 4096 None
                     [("a", File 5 (Ok (bytes "hello")));
                      ("b", Missing "lstat /img/e/b: permission denied")])].

(** Analyzers over images named by their source; the world counts the
    calls.  The image [broken] cannot be read. *)
Definition example_inventory : gmap string (string * Z) :=
  {[ "curl" := ("7.1", 100) ]}.

Definition example_sv : @SingleVersionPackageAnalyzer string (string * Z) nat :=
  {| sv_getPackages image := fun calls =>
       if String.eqb image "broken"
       then ((∅, Some (errorString "cannot read image")), S calls)
       else ((example_inventory, None), S calls);
     sv_Name := fun calls => ("AptAnalyzer", calls) |}.

Definition example_mv : @MultiVersionPackageAnalyzer string (string * Z) nat :=
  {| mv_getPackages image := fun calls =>
       if String.eqb image "broken"
       then ((∅, Some (errorString "cannot read image")), S calls)
       else (({[ "libfoo" := example_inventory ]}, None), S calls);
     mv_Name := fun calls => ("PipAnalyzer", calls) |}.

(** A diff that only counts the packages on each side. *)
Definition count_diff {V : Type} (p1 p2 : gmap string V) : nat * nat :=
  (size p1, size p2).

(** A directory, a link to it, and a directory that holds such a
    link. *)
Definition linked_disk : string -> node :=
  disk [("/img/data", Folder 4096 None [("blob", File 42 (Ok []))]);
        ("/img/link", Link 16 (Folder 4096 None [("blob", File 42 (Ok []))]));
        ("/img/tree", Folder 4096 None
                        [("blob", File 42 (Ok []));
                         ("link", Link 16 (Folder 4096 None [("blob", File 42 (Ok []))]))])].

(** A snapshot that adds the directory [/e] of [unlistable_disk], in
    which a name cannot be stat-ed. *)
Definition unstatable_d1 : Directory := {| Root := "/base"; Content := [] |}.

Definition unstatable_d2 : Directory := {| Root := "/img"; Content := ["/e"] |}.

(** Three copies of one file. *)
Definition mirror_disk : string -> node :=
  disk [("/a/motd", File 5 (Ok (bytes "hello")));
        ("/b/motd", File 5 (Ok (bytes "hello")));
        ("/c/motd", File 5 (Ok (bytes "hello")))].

(** * Properties *)

Set Default Proof Using "Type".

Ltac io_unfold :=
  unfold os_Stat, ioutil_ReadFile, glog_Errorf, emit, value, trace,
    mbind, IO_bind, mret, IO_ret, bind, ret.

Tactic Notation "io_unfold" "in" hyp(H) :=
  unfold os_Stat, ioutil_ReadFile, glog_Errorf, emit, value, trace,
    mbind, IO_bind, mret, IO_ret, bind, ret in H.

(** First-order goals, once the variables the goal does not mention
    are out of the way. *)
Ltac forget_unused :=
  repeat match goal with
         | x : ?T |- _ =>
             lazymatch type of T with
             | Prop => fail
             | _ => clear x
             end
         end.

Ltac logic_solver := forget_unused; naive_solver.

(** Membership of an event in a trace that has been computed. *)
Ltac trace_solver :=
  rewrite ?elem_of_app, ?elem_of_cons, ?elem_of_nil; logic_solver.

Section FileSystemFacts.

Variable fs : string -> node.
Variable filepath_Join : string -> string -> string.
Variable isTar : string -> bool.
Variable GetMatches GetAdditions GetDeletions : list string -> list string -> list string.

Lemma checkSameFile_value f1name f2name :
  value (checkSameFile fs f1name f2name) = Return (same_file fs f1name f2name).
Proof.
  unfold checkSameFile, same_file. io_unfold. simpl.
  destruct (stat (fs f1name)) as [i1|e1]; simpl; [|done].
  destruct (stat (fs f2name)) as [i2|e2]; simpl; [|done].
  destruct (FileInfo.Size i1 =? FileInfo.Size i2); simpl; [|done].
  destruct (read (fs f1name)) as [c1|e1]; simpl; [|done].
  destruct (read (fs f2name)) as [c2|e2]; simpl; [|done].
  by destruct (bytes_Equal c1 c2).
Qed.

Lemma bind_value {A B} (m : IO A) (k : A -> IO B) a :
  value m = Return a -> value (m ≫= k) = value (k a).
Proof.
  destruct m as [[a'|msg] t]; io_unfold; simpl; intros [= ->].
  by destruct (k a).
Qed.

Lemma bind_panic {A B} (m : IO A) (k : A -> IO B) msg :
  value m = Panic msg -> value (m ≫= k) = Panic msg.
Proof. destruct m as [[a'|msg'] t]; io_unfold; simpl; by intros [= ->]. Qed.

Lemma GetModifiedEntries_body_value d1 d2 modified f :
  value (GetModifiedEntries_body fs isTar d1 d2 modified f) =
  Return (if entry_modified fs isTar d1 d2 f then modified ++ [f] else modified).
Proof.
  unfold GetModifiedEntries_body, entry_modified.
  pose proof (checkSameFile_value (Root d1 +:+ f) (Root d2 +:+ f)) as Hc.
  destruct (checkSameFile fs (Root d1 +:+ f) (Root d2 +:+ f)) as [r tc].
  io_unfold. io_unfold in Hc. simpl in Hc. simpl. subst r.
  destruct (stat (fs (Root d1 +:+ f))) as [i1|e1]; simpl; [|done].
  destruct (stat (fs (Root d2 +:+ f))) as [i2|e2]; simpl; [|done].
  destruct (isTar (Root d1 +:+ f)); simpl.
  { by destruct (FileInfo.Size i1 =? FileInfo.Size i2). }
  destruct (FileInfo.IsDir i1); simpl; [done|].
  destruct (same_file fs (Root d1 +:+ f) (Root d2 +:+ f)) as [same [err|]]; simpl; [done|].
  by destruct same.
Qed.

Lemma for_range_value {A B} (body : B -> A -> IO B) (step : B -> A -> B) l acc :
  (forall acc x, value (body acc x) = Return (step acc x)) ->
  value (for_range body l acc) = Return (foldl step acc l).
Proof.
  intros Hbody. revert acc. induction l as [|x l IH]; intros acc; simpl; [done|].
  rewrite (bind_value _ _ (step acc x)) by apply Hbody. apply IH.
Qed.

Lemma foldl_append_filter (P : string -> bool) l acc :
  foldl (fun acc f => if P f then acc ++ [f] else acc) acc l =
  acc ++ List.filter P l.
Proof.
  revert acc. induction l as [|x l IH]; intros acc; simpl.
  - by rewrite app_nil_r.
  - rewrite IH. destruct (P x); [|done]. by rewrite <- app_assoc.
Qed.

Lemma GetModifiedEntries_loop_value d1 d2 l acc :
  value (for_range (GetModifiedEntries_body fs isTar d1 d2) l acc) =
  Return (acc ++ List.filter (entry_modified fs isTar d1 d2) l).
Proof.
  rewrite (for_range_value _
    (fun acc f => if entry_modified fs isTar d1 d2 f then acc ++ [f] else acc)).
  - by rewrite foldl_append_filter.
  - intros. apply GetModifiedEntries_body_value.
Qed.

Lemma GetModifiedEntries_value d1 d2 :
  value (GetModifiedEntries fs isTar GetMatches d1 d2) =
  Return (List.filter (entry_modified fs isTar d1 d2)
            (GetMatches (Content d1) (Content d2))).
Proof. unfold GetModifiedEntries. by rewrite GetModifiedEntries_loop_value. Qed.

Lemma elem_of_GetModifiedEntries d1 d2 f :
  exists modified,
    value (GetModifiedEntries fs isTar GetMatches d1 d2) = Return modified /\
    (f ∈ modified <->
     f ∈ GetMatches (Content d1) (Content d2) /\ entry_modified fs isTar d1 d2 f = true).
Proof.
  eexists. split; [apply GetModifiedEntries_value|].
  rewrite !list_elem_of_In, filter_In. done.
Qed.

(** The trace of a bind is the trace of its first part followed, when
    that part returns, by the trace of what follows. *)
Lemma elem_of_trace_bind {A B} (m : IO A) (k : A -> IO B) e :
  e ∈ trace (m ≫= k) ->
  e ∈ trace m \/ exists a, value m = Return a /\ e ∈ trace (k a).
Proof.
  destruct m as [[a|msg] t]; io_unfold; simpl; [|by left].
  destruct (k a) as [r t'] eqn:Hk. simpl. rewrite elem_of_app.
  intros [?|?]; [by left|right]. exists a. by rewrite Hk.
Qed.

Lemma elem_of_trace_for_range {A B} (body : B -> A -> IO B) l acc e :
  e ∈ trace (for_range body l acc) ->
  exists x acc', x ∈ l /\ e ∈ trace (body acc' x).
Proof.
  revert acc. induction l as [|x l IH]; intros acc; simpl.
  - io_unfold. simpl. by intros ?%elem_of_nil.
  - intros [He|(acc' & _ & He)]%elem_of_trace_bind.
    + exists x, acc. split; [left|done].
    + destruct (IH _ He) as (y & acc'' & ? & ?). exists y, acc''. split; [by right|done].
Qed.

Lemma checkSameFile_size_mismatch f1name f2name f1stat f2stat :
  stat (fs f1name) = Ok f1stat ->
  stat (fs f2name) = Ok f2stat ->
  FileInfo.Size f1stat <> FileInfo.Size f2stat ->
  checkSameFile fs f1name f2name = (Return (false, None), [EvStat f1name; EvStat f2name]).
Proof.
  intros H1 H2 Hne. unfold checkSameFile. io_unfold. simpl. rewrite H1. simpl.
  rewrite H2. simpl. by apply Z.eqb_neq in Hne as ->.
Qed.

Lemma GetModifiedEntries_body_read d1 d2 modified f path :
  EvReadFile path ∈ trace (GetModifiedEntries_body fs isTar d1 d2 modified f) ->
  isTar (Root d1 +:+ f) = false /\ (path = Root d1 +:+ f \/ path = Root d2 +:+ f).
Proof.
  unfold GetModifiedEntries_body, checkSameFile. io_unfold. simpl.
  destruct (stat (fs (Root d1 +:+ f))) as [i1|e1]; simpl; [|trace_solver].
  destruct (stat (fs (Root d2 +:+ f))) as [i2|e2]; simpl; [|trace_solver].
  destruct (isTar (Root d1 +:+ f)); simpl.
  { destruct (FileInfo.Size i1 =? FileInfo.Size i2); simpl; trace_solver. }
  destruct (FileInfo.IsDir i1); simpl; [trace_solver|].
  destruct (FileInfo.Size i1 =? FileInfo.Size i2); simpl; [|trace_solver].
  destruct (read (fs (Root d1 +:+ f))) as [c1|?]; simpl; [|trace_solver].
  destruct (read (fs (Root d2 +:+ f))) as [c2|?]; simpl; [|trace_solver].
  destruct (bytes_Equal c1 c2); simpl; trace_solver.
Qed.

(** C2: a matched entry whose path under the first root has an archive
    name is classified by the two stat sizes alone: the loop body makes
    the two stat calls and nothing else, appending the entry exactly
    when the sizes differ, so the entry is reported modified if and
    only if the sizes differ, whatever the contents; and every content
    read of [GetModifiedEntries] is made for an entry without an
    archive name. *)
Theorem archive_entry_classified_by_size d1 d2 f f1stat f2stat :
  stat (fs (Root d1 +:+ f)) = Ok f1stat ->
  stat (fs (Root d2 +:+ f)) = Ok f2stat ->
  isTar (Root d1 +:+ f) = true ->
  (forall modified,
     GetModifiedEntries_body fs isTar d1 d2 modified f =
     (Return (if FileInfo.Size f1stat =? FileInfo.Size f2stat
              then modified else modified ++ [f]),
      [EvStat (Root d1 +:+ f); EvStat (Root d2 +:+ f)])) /\
  (exists modified,
     value (GetModifiedEntries fs isTar GetMatches d1 d2) = Return modified /\
     (f ∈ modified <->
      f ∈ GetMatches (Content d1) (Content d2) /\
      FileInfo.Size f1stat <> FileInfo.Size f2stat)) /\
  (forall path,
     EvReadFile path ∈ trace (GetModifiedEntries fs isTar GetMatches d1 d2) ->
     exists g, g ∈ GetMatches (Content d1) (Content d2) /\
               isTar (Root d1 +:+ g) = false /\
               (path = Root d1 +:+ g \/ path = Root d2 +:+ g)).
Proof.
  intros H1 H2 Htar. split; [|split].
  - intros modified. unfold GetModifiedEntries_body. io_unfold. simpl.
    rewrite H1. simpl. rewrite H2. simpl. rewrite Htar.
    by destruct (FileInfo.Size f1stat =? FileInfo.Size f2stat).
  - destruct (elem_of_GetModifiedEntries d1 d2 f) as (modified & Hv & Hin).
    exists modified. split; [done|]. rewrite Hin.
    unfold entry_modified. rewrite H1, H2, Htar, negb_true_iff, Z.eqb_neq. done.
  - intros path (g & acc & Hg & He)%elem_of_trace_for_range.
    exists g. split; [done|]. by eapply GetModifiedEntries_body_read.
Qed.

(** C4: a matched entry without an archive name that is not a
    directory under the first root is reported modified if and only if
    the two stat sizes differ or the two contents, read in full,
    differ; and when the sizes differ [checkSameFile] returns false
    after its two stat calls, without reading either file. *)
Theorem regular_entry_modified_iff d1 d2 f f1stat f2stat :
  stat (fs (Root d1 +:+ f)) = Ok f1stat ->
  stat (fs (Root d2 +:+ f)) = Ok f2stat ->
  isTar (Root d1 +:+ f) = false ->
  FileInfo.IsDir f1stat = false ->
  (exists modified,
     value (GetModifiedEntries fs isTar GetMatches d1 d2) = Return modified /\
     (f ∈ modified <->
      f ∈ GetMatches (Content d1) (Content d2) /\
      (FileInfo.Size f1stat <> FileInfo.Size f2stat \/
       exists c1 c2, read (fs (Root d1 +:+ f)) = Ok c1 /\
                     read (fs (Root d2 +:+ f)) = Ok c2 /\ c1 <> c2))) /\
  (FileInfo.Size f1stat <> FileInfo.Size f2stat ->
   checkSameFile fs (Root d1 +:+ f) (Root d2 +:+ f) =
   (Return (false, None), [EvStat (Root d1 +:+ f); EvStat (Root d2 +:+ f)])).
Proof.
  intros H1 H2 Htar Hdir. split; [|by apply checkSameFile_size_mismatch].
  destruct (elem_of_GetModifiedEntries d1 d2 f) as (modified & Hv & Hin).
  exists modified. split; [done|]. rewrite Hin.
  unfold entry_modified, same_file. rewrite H1, H2, Htar, Hdir.
  destruct (Z.eqb_spec (FileInfo.Size f1stat) (FileInfo.Size f2stat)) as [Heq|Hne];
    [|logic_solver].
  destruct (read (fs (Root d1 +:+ f))) as [c1|e1]; [|logic_solver].
  destruct (read (fs (Root d2 +:+ f))) as [c2|e2]; [|logic_solver].
  unfold bytes_Equal. case_bool_decide; logic_solver.
Qed.




(** C9: for a matched entry without an archive name, whether the entry
    is skipped as a directory is decided by the stat under the first
    root alone: a directory there is never reported modified, whatever
    the path is under the second root, and the body reads no content;
    an entry that is not a directory there is compared by
    [checkSameFile], whatever the path is under the second root. *)
Theorem directory_in_first_never_modified d1 d2 f f1stat :
  stat (fs (Root d1 +:+ f)) = Ok f1stat ->
  isTar (Root d1 +:+ f) = false ->
  (FileInfo.IsDir f1stat = true ->
   (exists modified,
      value (GetModifiedEntries fs isTar GetMatches d1 d2) = Return modified /\
      f ∉ modified) /\
   forall modified path,
     EvReadFile path ∉ trace (GetModifiedEntries_body fs isTar d1 d2 modified f)) /\
  (FileInfo.IsDir f1stat = false ->
   forall f2stat, stat (fs (Root d2 +:+ f)) = Ok f2stat ->
   exists modified,
     value (GetModifiedEntries fs isTar GetMatches d1 d2) = Return modified /\
     (f ∈ modified <->
      f ∈ GetMatches (Content d1) (Content d2) /\
      value (checkSameFile fs (Root d1 +:+ f) (Root d2 +:+ f)) = Return (false, None))).
Proof.
  intros H1 Htar. split.
  - intros Hdir. split.
    + destruct (elem_of_GetModifiedEntries d1 d2 f) as (modified & Hv & Hin).
      exists modified. split; [done|]. rewrite Hin.
      unfold entry_modified. rewrite H1, Htar, Hdir.
      destruct (stat (fs (Root d2 +:+ f))); logic_solver.
    + intros modified path. unfold GetModifiedEntries_body. io_unfold. simpl.
      rewrite H1. simpl.
      destruct (stat (fs (Root d2 +:+ f))); simpl;
        rewrite ?Htar, ?Hdir; simpl; rewrite ?elem_of_cons, ?elem_of_nil; logic_solver.
  - intros Hdir f2stat H2.
    destruct (elem_of_GetModifiedEntries d1 d2 f) as (modified & Hv & Hin).
    exists modified. split; [done|]. rewrite Hin, checkSameFile_value.
    unfold entry_modified. rewrite H1, H2, Htar, Hdir.
    destruct (same_file fs (Root d1 +:+ f) (Root d2 +:+ f)) as [[] [e|]]; logic_solver.
Qed.

(** *** [GetSize] *)

(** Induction on a tree, with the hypothesis for every child of a
    directory. *)
Lemma node_nested_ind (P : node -> Prop) :
  (forall msg, P (Missing msg)) ->
  (forall size content, P (File size content)) ->
  (forall size listing children,
     Forall (fun c => P (snd c)) children -> P (Folder size listing children)) ->
  (forall size target, P target -> P (Link size target)) ->
  forall n, P n.
Proof.
  intros HM HF HD HL. fix IH 1.
  intros [msg|size content|size listing children|size target];
    [apply HM|apply HF| |apply HL, IH].
  apply HD. induction children as [|[name c] children IHc]; constructor.
  - apply IH.
  - apply IHc.
Qed.

Lemma int64_add_wrap64 z x : int64_add (wrap64 z) x = wrap64 (z + x).
Proof.
  unfold int64_add, wrap64. f_equal.
  replace ((z + 2 ^ 63) mod 2 ^ 64 - 2 ^ 63 + x + 2 ^ 63)
    with ((z + 2 ^ 63) mod 2 ^ 64 + x) by lia.
  rewrite Zplus_mod_idemp_l. f_equal. lia.
Qed.

Lemma wrap64_small z : - 2 ^ 63 <= z < 2 ^ 63 -> wrap64 z = z.
Proof. intros Hz. unfold wrap64. rewrite Z.mod_small; lia. Qed.

(** The walk of [getDirectorySize] over a tree without entries that
    cannot be stat-ed returns. *)
Lemma walk_no_missing_returns n :
  no_missing n = true ->
  forall path size,
    exists err size',
      walk filepath_Join getDirectorySize_walkFn path n size = Return (err, size').
Proof.
  induction n as [msg|sz content|sz listing children IH|sz target _] using node_nested_ind;
    intros Hn path size; simpl in Hn; simpl; [done|eauto| |eauto].
  destruct listing as [msg|]; [eauto|].
  revert size. induction children as [|[name c] children IHc]; intros size; [eauto|].
  simpl in Hn. apply andb_prop in Hn as [Hc Hcs].
  inversion_clear IH as [|?? IHhead IHtail]. simpl in IHhead.
  destruct (IHhead Hc (filepath_Join path name) size) as (err & size' & Hw).
  destruct c as [msg|sz' content|sz' listing children'|sz' target]; [done| | |].
  - rewrite Hw. destruct err; eauto.
  - rewrite Hw. destruct err as [err|]; [|eauto]. destruct (is_SkipDir err); eauto.
  - rewrite Hw. destruct err; eauto.
Qed.

(** Over a tree in which every directory can be listed, the walk adds
    the sizes of the non-directories to the running [int64] sum. *)
Lemma walk_readable n :
  readable n = true ->
  forall path z,
    walk filepath_Join getDirectorySize_walkFn path n (wrap64 z) =
    Return (None, wrap64 (z + tree_size n)).
Proof.
  induction n as [msg|sz content|sz listing children IH|sz target _] using node_nested_ind;
    intros Hn path z; simpl in Hn; simpl;
    [done|by rewrite int64_add_wrap64| |by rewrite int64_add_wrap64].
  destruct listing as [msg|]; [done|]. simpl in Hn.
  revert z. induction children as [|[name c] children IHc]; intros z; simpl.
  { by rewrite Z.add_0_r. }
  simpl in Hn. apply andb_prop in Hn as [Hc Hcs].
  inversion_clear IH as [|?? IHhead IHtail]. simpl in IHhead.
  specialize (IHhead Hc (filepath_Join path name) z).
  destruct c as [msg|sz' content|sz' listing children'|sz' target]; [done|..];
    rewrite IHhead, (IHc IHtail Hcs); do 3 f_equal; lia.
Qed.

Lemma GetSize_stat_error path err :
  stat (fs path) = Err err ->
  GetSize fs filepath_Join path =
  (Return (-1),
   [EvStat path; EvLog ("Could not obtain size for " +:+ path +:+ ": " +:+ Error err)]).
Proof. intros H. unfold GetSize. io_unfold. simpl. by rewrite H. Qed.

Lemma GetSize_file path size content :
  fs path = File size content ->
  GetSize fs filepath_Join path = (Return size, [EvStat path]).
Proof. intros H. unfold GetSize. io_unfold. simpl. by rewrite H. Qed.

Lemma GetSize_readable_directory path size listing children :
  fs path = Folder size listing children ->
  readable (fs path) = true ->
  GetSize fs filepath_Join path =
  (Return (wrap64 (tree_size (fs path))), [EvStat path; EvWalk path]).
Proof.
  intros H Hr. unfold GetSize, getDirectorySize, filepath_Walk, Walk. io_unfold.
  change 0 with (wrap64 0). rewrite (walk_readable _ Hr). rewrite H. simpl. done.
Qed.

(** A link is stat-ed through, but walked as the link it is: when it
    leads to a directory, the size is that of the link. *)
Lemma GetSize_link path size target :
  fs path = Link size target ->
  GetSize fs filepath_Join path =
  match stat target with
  | Err err =>
      (Return (-1),
       [EvStat path; EvLog ("Could not obtain size for " +:+ path +:+ ": " +:+ Error err)])
  | Ok info =>
      if FileInfo.IsDir info
      then (Return (wrap64 size), [EvStat path; EvWalk path])
      else (Return (FileInfo.Size info), [EvStat path])
  end.
Proof.
  intros H. unfold GetSize, getDirectorySize, filepath_Walk, Walk. io_unfold.
  rewrite H. change (stat (Link size target)) with (stat target).
  by destruct (stat target) as [[[] sz]|err].
Qed.

(** What [GetSize] does get right: the stat size of a non-directory,
    the sum over the tree of a directory that can be walked to the end,
    and -1 when the path cannot be stat-ed. *)
Lemma GetSize_spec path :
  match fs path with
  | Missing _ => value (GetSize fs filepath_Join path) = Return (-1)
  | File size _ => value (GetSize fs filepath_Join path) = Return size
  | Folder _ _ _ =>
      readable (fs path) = true ->
      value (GetSize fs filepath_Join path) = Return (wrap64 (tree_size (fs path))) /\
      (- 2 ^ 63 <= tree_size (fs path) < 2 ^ 63 ->
       value (GetSize fs filepath_Join path) = Return (tree_size (fs path)))
  | Link size target =>
      match stat target with
      | Err _ => value (GetSize fs filepath_Join path) = Return (-1)
      | Ok info =>
          value (GetSize fs filepath_Join path) =
          Return (if FileInfo.IsDir info then wrap64 size else FileInfo.Size info)
      end
  end.
Proof.
  destruct (fs path) as [msg|size content|size listing children|size target] eqn:H.
  - erewrite GetSize_stat_error; [done|]. by rewrite H.
  - by erewrite GetSize_file.
  - intros Hr. rewrite <- H in Hr. erewrite GetSize_readable_directory by done.
    rewrite H. split; [done|]. intros Hrange. simpl. by rewrite wrap64_small.
  - rewrite (GetSize_link _ _ _ H).
    destruct (stat target) as [[[] sz]|err]; done.
Qed.

Lemma GetSize_returns path :
  walkable fs -> exists size, value (GetSize fs filepath_Join path) = Return size.
Proof.
  intros Hfs. specialize (Hfs path).
  destruct (fs path) as [msg|size content|size listing children|size target] eqn:H.
  - erewrite GetSize_stat_error; [eauto|]. by rewrite H.
  - erewrite GetSize_file; eauto.
  - unfold GetSize, getDirectorySize, filepath_Walk, Walk. io_unfold. rewrite H.
    destruct (walk_no_missing_returns _ Hfs path 0) as (err & size' & Hw).
    rewrite Hw. destruct err as [err|]; [|simpl; eauto].
    destruct (is_SkipDir err); simpl; eauto.
  - rewrite (GetSize_link _ _ _ H).
    destruct (stat target) as [[[] sz]|err]; simpl; eauto.
Qed.


(** *** Entries and [DiffDirectory] *)

Lemma bind_returns {A B} (m : IO A) (k : A -> IO B) b :
  value (m ≫= k) = Return b ->
  exists a, value m = Return a /\ value (k a) = Return b.
Proof.
  destruct m as [[a|msg] t] eqn:Hm; [|by io_unfold].
  intros H. exists a. split; [done|]. by rewrite <- H, (bind_value _ _ a).
Qed.

(** A loop that appends one item per element, unless computing the
    item panics. *)
Lemma for_range_collect {A E} (body : list E -> A -> IO (list E)) (item : A -> outcome E) :
  (forall acc x, value (body acc x) =
                 match item x with
                 | Return e => Return (acc ++ [e])
                 | Panic msg => Panic msg
                 end) ->
  forall l acc,
    (forall entries,
       value (for_range body l acc) = Return entries ->
       exists new, entries = acc ++ new /\ Forall2 (fun x e => item x = Return e) l new) /\
    ((forall x, x ∈ l -> exists e, item x = Return e) ->
     exists entries, value (for_range body l acc) = Return entries).
Proof.
  intros Hbody. induction l as [|x l IH]; intros acc; simpl.
  - split.
    + intros entries [= <-]. exists []. by rewrite app_nil_r.
    + eauto.
  - specialize (Hbody acc x). split.
    + intros entries (acc' & Hacc & Hrest)%bind_returns.
      rewrite Hbody in Hacc. destruct (item x) as [e|msg] eqn:Hx; [|done].
      injection Hacc as <-.
      destruct (proj1 (IH _) _ Hrest) as (new & -> & Hnew).
      exists (e :: new). split; [by rewrite <- app_assoc|by constructor].
    + intros Hall. destruct (Hall x) as [e Hx]; [by left|].
      rewrite Hx in Hbody. rewrite (bind_value _ _ _ Hbody).
      apply IH. intros y Hy. apply Hall. by right.
Qed.

Lemma createDirectoryEntries_body_value root entries name :
  value (size ← GetSize fs filepath_Join (filepath_Join root name);
         mret (M := IO) (entries ++ [{| Name := name; Size := size |}])) =
  match directory_entry fs filepath_Join root name with
  | Return e => Return (entries ++ [e])
  | Panic msg => Panic msg
  end.
Proof.
  unfold directory_entry.
  destruct (value (GetSize fs filepath_Join (filepath_Join root name))) as [size|msg] eqn:H.
  - by rewrite (bind_value _ _ _ H).
  - by rewrite (bind_panic _ _ _ H).
Qed.

Lemma createEntryDiffs_body_value root1 root2 entries name :
  value (size1 ← GetSize fs filepath_Join (filepath_Join root1 name);
         size2 ← GetSize fs filepath_Join (filepath_Join root2 name);
         mret (M := IO) (entries ++ [{| EntryDiff.Name := name; EntryDiff.Size1 := size1;
                                       EntryDiff.Size2 := size2 |}])) =
  match entry_diff fs filepath_Join root1 root2 name with
  | Return e => Return (entries ++ [e])
  | Panic msg => Panic msg
  end.
Proof.
  unfold entry_diff.
  destruct (value (GetSize fs filepath_Join (filepath_Join root1 name))) as [size1|msg] eqn:H1;
    [|by rewrite (bind_panic _ _ _ H1)].
  rewrite (bind_value _ _ _ H1).
  destruct (value (GetSize fs filepath_Join (filepath_Join root2 name))) as [size2|msg] eqn:H2.
  - by rewrite (bind_value _ _ _ H2).
  - by rewrite (bind_panic _ _ _ H2).
Qed.

Lemma createDirectoryEntries_returned root names entries :
  value (createDirectoryEntries fs filepath_Join root names) = Return entries ->
  Name <$> entries = names /\
  Forall (fun e => value (GetSize fs filepath_Join (filepath_Join root (Name e))) =
                   Return (Size e)) entries.
Proof.
  intros H.
  apply (for_range_collect _ (directory_entry fs filepath_Join root)) in H
    as (new & -> & Hnew); [|intros; apply createDirectoryEntries_body_value].
  simpl. induction Hnew as [|name e names new He _ [IHn IHs]]; [done|].
  unfold directory_entry in He.
  destruct (value (GetSize fs filepath_Join (filepath_Join root name))) as [size|] eqn:Hs;
    [|done].
  injection He as <-. split.
  - by rewrite fmap_cons, IHn.
  - by constructor.
Qed.

Lemma createEntryDiffs_returned root1 root2 names entries :
  value (createEntryDiffs fs filepath_Join root1 root2 names) = Return entries ->
  EntryDiff.Name <$> entries = names /\
  Forall (fun e =>
            value (GetSize fs filepath_Join (filepath_Join root1 (EntryDiff.Name e))) =
            Return (EntryDiff.Size1 e) /\
            value (GetSize fs filepath_Join (filepath_Join root2 (EntryDiff.Name e))) =
            Return (EntryDiff.Size2 e)) entries.
Proof.
  intros H.
  apply (for_range_collect _ (entry_diff fs filepath_Join root1 root2)) in H
    as (new & -> & Hnew); [|intros; apply createEntryDiffs_body_value].
  simpl. induction Hnew as [|name e names new He _ [IHn IHs]]; [done|].
  unfold entry_diff in He.
  destruct (value (GetSize fs filepath_Join (filepath_Join root1 name))) as [size1|] eqn:Hs1;
    [|done].
  destruct (value (GetSize fs filepath_Join (filepath_Join root2 name))) as [size2|] eqn:Hs2;
    [|done].
  injection He as <-. split.
  - by rewrite fmap_cons, IHn.
  - by constructor.
Qed.

Lemma createDirectoryEntries_returns root names :
  walkable fs ->
  exists entries, value (createDirectoryEntries fs filepath_Join root names) = Return entries.
Proof.
  intros Hfs.
  apply (for_range_collect _ (directory_entry fs filepath_Join root));
    [intros; apply createDirectoryEntries_body_value|].
  intros name _. unfold directory_entry.
  destruct (GetSize_returns (filepath_Join root name) Hfs) as [size ->]. eauto.
Qed.

Lemma createEntryDiffs_returns root1 root2 names :
  walkable fs ->
  exists entries,
    value (createEntryDiffs fs filepath_Join root1 root2 names) = Return entries.
Proof.
  intros Hfs.
  apply (for_range_collect _ (entry_diff fs filepath_Join root1 root2));
    [intros; apply createEntryDiffs_body_value|].
  intros name _. unfold entry_diff.
  destruct (GetSize_returns (filepath_Join root1 name) Hfs) as [size1 ->].
  destruct (GetSize_returns (filepath_Join root2 name) Hfs) as [size2 ->]. eauto.
Qed.

(** A size lookup that panics takes [createDirectoryEntries] with it. *)
Lemma createDirectoryEntries_panics root names name msg :
  name ∈ names ->
  value (GetSize fs filepath_Join (filepath_Join root name)) = Panic msg ->
  exists msg', value (createDirectoryEntries fs filepath_Join root names) = Panic msg'.
Proof.
  intros Hin Hp.
  destruct (value (createDirectoryEntries fs filepath_Join root names)) as [entries|msg']
    eqn:Hv; [|eauto].
  apply createDirectoryEntries_returned in Hv as [<- Hv].
  apply list_elem_of_fmap in Hin as (e & -> & He).
  rewrite Forall_forall in Hv. specialize (Hv e He). congruence.
Qed.

Lemma length_eqb_0 {A} (l : list A) : (length l =? 0)%nat = bool_decide (l = []).
Proof. by destruct l. Qed.

(** [DiffDirectory] returns on a disk that can be walked, and what it
    returns is built from the three sorted name lists. *)
Lemma DiffDirectory_returns d1 d2 :
  walkable fs ->
  exists diff same,
    value (DiffDirectory fs filepath_Join isTar GetMatches GetAdditions GetDeletions d1 d2) =
    Return (diff, same).
Proof.
  intros Hfs. unfold DiffDirectory.
  destruct (createDirectoryEntries_returns (Root d2)
              (sort_Strings (GetAddedEntries GetAdditions d1 d2)) Hfs) as [adds Hadds].
  destruct (createDirectoryEntries_returns (Root d1)
              (sort_Strings (GetDeletedEntries GetDeletions d1 d2)) Hfs) as [dels Hdels].
  rewrite (bind_value _ _ _ Hadds), (bind_value _ _ _ Hdels).
  rewrite (bind_value _ _ _ (GetModifiedEntries_value d1 d2)).
  destruct (createEntryDiffs_returns (Root d1) (Root d2)
              (sort_Strings (List.filter (entry_modified fs isTar d1 d2)
                               (GetMatches (Content d1) (Content d2)))) Hfs) as [mods Hmods].
  rewrite (bind_value _ _ _ Hmods). eauto.
Qed.

Lemma DiffDirectory_returned d1 d2 diff same :
  value (DiffDirectory fs filepath_Join isTar GetMatches GetAdditions GetDeletions d1 d2) =
  Return (diff, same) ->
  let adds := sort_Strings (GetAdditions (Content d1) (Content d2)) in
  let dels := sort_Strings (GetDeletions (Content d1) (Content d2)) in
  let mods := sort_Strings (List.filter (entry_modified fs isTar d1 d2)
                              (GetMatches (Content d1) (Content d2))) in
  value (createDirectoryEntries fs filepath_Join (Root d2) adds) = Return (Adds diff) /\
  value (createDirectoryEntries fs filepath_Join (Root d1) dels) = Return (Dels diff) /\
  value (createEntryDiffs fs filepath_Join (Root d1) (Root d2) mods) = Return (Mods diff) /\
  same = bool_decide (adds = [] /\ dels = [] /\ mods = []).
Proof.
  unfold DiffDirectory.
  intros (adds & Hadds & (dels & Hdels & (mods & Hmods & (ents & Hents & H)%bind_returns
    )%bind_returns)%bind_returns)%bind_returns.
  rewrite GetModifiedEntries_value in Hmods. injection Hmods as <-.
  injection H as <- <-. simpl. repeat split; try done.
  unfold GetAddedEntries, GetDeletedEntries.
  rewrite !length_eqb_0, !bool_decide_and.
  by repeat destruct (bool_decide _).
Qed.

(** C6: the boolean that [DiffDirectory] returns is true if and only if
    the three sequences of the [DirDiff] it returns are empty; and it
    does return on a disk that can be walked. *)
Theorem DiffDirectory_same_iff_empty d1 d2 :
  (walkable fs ->
   exists diff same,
     value (DiffDirectory fs filepath_Join isTar GetMatches GetAdditions GetDeletions d1 d2) =
     Return (diff, same)) /\
  (forall diff same,
     value (DiffDirectory fs filepath_Join isTar GetMatches GetAdditions GetDeletions d1 d2) =
     Return (diff, same) ->
     (same = true <-> Adds diff = [] /\ Dels diff = [] /\ Mods diff = [])).
Proof.
  split; [apply DiffDirectory_returns|].
  intros diff same (Hadds & Hdels & Hmods & ->)%DiffDirectory_returned.
  apply createDirectoryEntries_returned in Hadds as [Hadds _].
  apply createDirectoryEntries_returned in Hdels as [Hdels _].
  apply createEntryDiffs_returned in Hmods as [Hmods _].
  rewrite bool_decide_eq_true, <- Hadds, <- Hdels, <- Hmods.
  split.
  - intros (?%fmap_nil_inv & ?%fmap_nil_inv & ?%fmap_nil_inv). done.
  - by intros (-> & -> & ->).
Qed.

(** A size lookup of an added entry that panics takes [DiffDirectory]
    with it: nothing is returned. *)
Lemma DiffDirectory_panics_with_added_entry d1 d2 name msg :
  name ∈ GetAdditions (Content d1) (Content d2) ->
  value (GetSize fs filepath_Join (filepath_Join (Root d2) name)) = Panic msg ->
  exists msg',
    value (DiffDirectory fs filepath_Join isTar GetMatches GetAdditions GetDeletions d1 d2) =
    Panic msg'.
Proof.
  intros Hin Hp. unfold DiffDirectory.
  destruct (createDirectoryEntries_panics (Root d2)
              (sort_Strings (GetAddedEntries GetAdditions d1 d2)) name msg) as [msg' Hv];
    [|done|].
  - unfold sort_Strings, GetAddedEntries. by rewrite merge_sort_Permutation.
  - exists msg'. by apply bind_panic.
Qed.


(** An entry is never modified with respect to itself. *)
Lemma entry_modified_self d f : entry_modified fs isTar d d f = false.
Proof.
  unfold entry_modified, same_file.
  destruct (stat (fs (Root d +:+ f))) as [i|e]; [|done].
  rewrite Z.eqb_refl. destruct (isTar (Root d +:+ f)); [done|].
  destruct (FileInfo.IsDir i); [done|].
  destruct (read (fs (Root d +:+ f))) as [c|e]; [|done].
  unfold bytes_Equal. by rewrite bool_decide_eq_true_2.
Qed.

(** The diff of a directory with itself, for any set difference that
    finds nothing added and nothing deleted between a list and itself. *)
Lemma DiffDirectory_self_contract d :
  (forall A, GetAdditions A A = []) ->
  (forall A, GetDeletions A A = []) ->
  value (DiffDirectory fs filepath_Join isTar GetMatches GetAdditions GetDeletions d d) =
  Return ({| Adds := []; Dels := []; Mods := [] |}, true).
Proof.
  intros Hadd Hdel. unfold DiffDirectory, GetAddedEntries, GetDeletedEntries.
  rewrite Hadd, Hdel.
  rewrite (bind_value _ _ []) by done.
  rewrite (bind_value _ _ []) by done.
  rewrite (bind_value _ _ _ (GetModifiedEntries_value d d)).
  assert (List.filter (entry_modified fs isTar d d) (GetMatches (Content d) (Content d)) = [])
    as ->.
  { induction (GetMatches (Content d) (Content d)) as [|f l IH]; [done|].
    simpl. by rewrite entry_modified_self. }
  done.
Qed.

End FileSystemFacts.

(** *** The set difference of the specification *)

Lemma elem_of_Matches A B x : x ∈ Matches A B <-> x ∈ A /\ x ∈ B.
Proof. unfold Matches. rewrite list_elem_of_filter. tauto. Qed.

Lemma elem_of_Additions A B x : x ∈ Additions A B <-> x ∈ B /\ x ∉ A.
Proof. unfold Additions. rewrite list_elem_of_filter. tauto. Qed.

Lemma elem_of_Deletions A B x : x ∈ Deletions A B <-> x ∈ A /\ x ∉ B.
Proof. unfold Deletions. rewrite list_elem_of_filter. tauto. Qed.

Lemma Additions_self A : Additions A A = [].
Proof. apply elem_of_nil_inv. intros x. rewrite elem_of_Additions. tauto. Qed.

Lemma Deletions_self A : Deletions A A = [].
Proof. apply elem_of_nil_inv. intros x. rewrite elem_of_Deletions. tauto. Qed.

(** C8: with the set difference of the specification, the diff of a
    directory with itself has no added, no deleted and no modified
    entry, and the boolean is true; no size is looked up, so this holds
    on every disk. *)
Theorem DiffDirectory_self fs filepath_Join isTar GetMatches d :
  value (DiffDirectory fs filepath_Join isTar GetMatches Additions Deletions d d) =
  Return ({| Adds := []; Dels := []; Mods := [] |}, true).
Proof.
  apply DiffDirectory_self_contract; [apply Additions_self|apply Deletions_self].
Qed.

(** *** More on the comparison of files and on what is read *)

Ltac events_solver :=
  repeat first
    [ exact I
    | apply List.Forall_nil
    | apply List.Forall_cons; [first [by left|by right; eexists]|] ].

Ltac trace_shape :=
  split; [by eexists|split; [done|intros path; first [by eauto 10|trace_solver]]].

Section ComparisonFacts.

Variable fs : string -> node.
Variable filepath_Join : string -> string -> string.
Variable isTar : string -> bool.
Variable GetMatches GetAdditions GetDeletions : list string -> list string -> list string.

Lemma same_file_true_iff f1name f2name :
  same_file fs f1name f2name = (true, None) <->
  exists f1stat f2stat content,
    stat (fs f1name) = Ok f1stat /\ stat (fs f2name) = Ok f2stat /\
    FileInfo.Size f1stat = FileInfo.Size f2stat /\
    read (fs f1name) = Ok content /\ read (fs f2name) = Ok content.
Proof.
  unfold same_file, bytes_Equal.
  destruct (stat (fs f1name)) as [s1|e1]; [|split; [done|logic_solver]].
  destruct (stat (fs f2name)) as [s2|e2]; [|split; [done|logic_solver]].
  destruct (Z.eqb_spec (FileInfo.Size s1) (FileInfo.Size s2)) as [Hs|Hs];
    [|split; [done|logic_solver]].
  destruct (read (fs f1name)) as [c1|e1]; [|split; [done|logic_solver]].
  destruct (read (fs f2name)) as [c2|e2]; [|split; [done|logic_solver]].
  case_bool_decide as Hc.
  - subst c2. split; [|done]. intros _. by exists s1, s2, c1.
  - split; [done|]. logic_solver.
Qed.

Lemma same_file_never_true_with_error f1name f2name err :
  same_file fs f1name f2name <> (true, Some err).
Proof.
  unfold same_file.
  repeat (match goal with
          | |- context [match ?x with _ => _ end] => destruct x
          end; try done).
Qed.

Lemma same_file_sym f1name f2name :
  match same_file fs f1name f2name, same_file fs f2name f1name with
  | (same, None), (same', None) => same = same'
  | (_, Some _), (_, Some _) => True
  | _, _ => False
  end.
Proof.
  unfold same_file, bytes_Equal.
  destruct (stat (fs f1name)) as [s1|e1], (stat (fs f2name)) as [s2|e2]; try done.
  rewrite (Z.eqb_sym (FileInfo.Size s2)).
  destruct (FileInfo.Size s1 =? FileInfo.Size s2); [|done].
  destruct (read (fs f1name)) as [c1|e1], (read (fs f2name)) as [c2|e2]; try done.
  apply bool_decide_ext. done.
Qed.

(** X1: [checkSameFile] answers true, with a nil error, exactly when both
    paths can be stat-ed, their sizes are equal, and both can be read
    and have the same bytes; it never answers true next to an error. *)
Theorem checkSameFile_true_iff f1name f2name :
  (value (checkSameFile fs f1name f2name) = Return (true, None) <->
   exists f1stat f2stat content,
     stat (fs f1name) = Ok f1stat /\ stat (fs f2name) = Ok f2stat /\
     FileInfo.Size f1stat = FileInfo.Size f2stat /\
     read (fs f1name) = Ok content /\ read (fs f2name) = Ok content) /\
  (forall err, value (checkSameFile fs f1name f2name) <> Return (true, Some err)).
Proof.
  rewrite checkSameFile_value. split.
  - rewrite <- same_file_true_iff. split; congruence.
  - intros err [= H]. by apply same_file_never_true_with_error in H.
Qed.

(** X2: The answer does not depend on the order of the two paths: the same
    boolean with a nil error either way, and an error one way exactly
    when there is one the other way. *)
Theorem checkSameFile_symmetric f1name f2name :
  (forall same,
     value (checkSameFile fs f1name f2name) = Return (same, None) <->
     value (checkSameFile fs f2name f1name) = Return (same, None)) /\
  ((exists err, value (checkSameFile fs f1name f2name) = Return (false, Some err)) <->
   (exists err, value (checkSameFile fs f2name f1name) = Return (false, Some err))).
Proof.
  rewrite !checkSameFile_value. pose proof (same_file_sym f1name f2name) as H.
  pose proof (same_file_never_true_with_error f1name f2name) as N1.
  pose proof (same_file_never_true_with_error f2name f1name) as N2.
  destruct (same_file fs f1name f2name) as [same1 [err1|]],
    (same_file fs f2name f1name) as [same2 [err2|]]; try done.
  - split; [intros same; split; intros [=]|].
    destruct same1; [by destruct (N1 err1)|].
    destruct same2; [by destruct (N2 err2)|]. split; eauto.
  - subst same2. split; [done|]. split; intros [? [=]].
Qed.

(** X3: Files that are found the same as a third are found the same, and a
    path is never found to differ from itself. *)
Theorem checkSameFile_transitive f1name f2name f3name :
  value (checkSameFile fs f1name f2name) = Return (true, None) ->
  value (checkSameFile fs f2name f3name) = Return (true, None) ->
  value (checkSameFile fs f1name f3name) = Return (true, None) /\
  value (checkSameFile fs f1name f1name) = Return (true, None).
Proof.
  rewrite !checkSameFile_value. intros [= H12] [= H23].
  apply same_file_true_iff in H12 as (s1 & s2 & c & H1 & H2 & Hs & Hc1 & Hc2).
  apply same_file_true_iff in H23 as (s2' & s3 & c' & H2' & H3 & Hs' & Hc2' & Hc3).
  rewrite H2 in H2'. injection H2' as <-. rewrite Hc2 in Hc2'. injection Hc2' as <-.
  split; f_equal; apply same_file_true_iff.
  - exists s1, s3, c. repeat split; congruence.
  - by exists s1, s1, c.
Qed.

(** X4: A path that can be stat-ed and read is found the same as itself;
    one that cannot gives an error. *)
Theorem checkSameFile_never_differs_from_itself f1name :
  value (checkSameFile fs f1name f1name) <> Return (false, None).
Proof.
  rewrite checkSameFile_value. unfold same_file, bytes_Equal.
  destruct (stat (fs f1name)) as [s1|e1]; [|done]. rewrite Z.eqb_refl.
  destruct (read (fs f1name)) as [c1|e1]; [|done].
  by rewrite bool_decide_eq_true_2.
Qed.

(** X5: What [checkSameFile] asks of the disk is an initial part of: stat
    the first path, stat the second, read the first, read the second;
    it starts with the stat of the first path, and it reads only when
    both paths were stat-ed with equal sizes. *)
Theorem checkSameFile_trace f1name f2name :
  trace (checkSameFile fs f1name f2name) `prefix_of`
    [EvStat f1name; EvStat f2name; EvReadFile f1name; EvReadFile f2name] /\
  head (trace (checkSameFile fs f1name f2name)) = Some (EvStat f1name) /\
  (forall path,
     EvReadFile path ∈ trace (checkSameFile fs f1name f2name) ->
     exists f1stat f2stat,
       stat (fs f1name) = Ok f1stat /\ stat (fs f2name) = Ok f2stat /\
       FileInfo.Size f1stat = FileInfo.Size f2stat).
Proof.
  unfold checkSameFile. io_unfold. simpl.
  destruct (stat (fs f1name)) as [s1|e1]; simpl; [|by trace_shape].
  destruct (stat (fs f2name)) as [s2|e2]; simpl; [|by trace_shape].
  destruct (Z.eqb_spec (FileInfo.Size s1) (FileInfo.Size s2)) as [Hs|Hs]; simpl;
    [|by trace_shape].
  destruct (read (fs f1name)) as [c1|e1]; simpl; [|by trace_shape].
  destruct (read (fs f2name)) as [c2|e2]; simpl; [|by trace_shape].
  destruct (bytes_Equal c1 c2); simpl; by trace_shape.
Qed.

Lemma filter_sublist {A} (P : A -> bool) (l : list A) : List.filter P l `sublist_of` l.
Proof.
  induction l as [|x l IH]; simpl; [constructor|].
  destruct (P x); by constructor.
Qed.

(** X6: [GetModifiedEntries] never panics, and what it returns is taken out
    of the matched entries without reordering or repeating them. *)
Theorem GetModifiedEntries_sublist_of_matches d1 d2 :
  exists modified,
    value (GetModifiedEntries fs isTar GetMatches d1 d2) = Return modified /\
    modified `sublist_of` GetMatches (Content d1) (Content d2).
Proof.
  eexists. split; [apply GetModifiedEntries_value|apply filter_sublist].
Qed.

Lemma entry_modified_sym d1 d2 f f1stat f2stat :
  stat (fs (Root d1 +:+ f)) = Ok f1stat ->
  stat (fs (Root d2 +:+ f)) = Ok f2stat ->
  isTar (Root d1 +:+ f) = isTar (Root d2 +:+ f) ->
  FileInfo.IsDir f1stat = FileInfo.IsDir f2stat ->
  entry_modified fs isTar d1 d2 f = entry_modified fs isTar d2 d1 f.
Proof.
  intros H1 H2 Htar Hdir. unfold entry_modified. rewrite H1, H2, Htar, Hdir.
  rewrite (Z.eqb_sym (FileInfo.Size f2stat)).
  pose proof (same_file_sym (Root d1 +:+ f) (Root d2 +:+ f)) as Hs.
  destruct (same_file fs (Root d1 +:+ f) (Root d2 +:+ f)) as [same1 [err1|]],
    (same_file fs (Root d2 +:+ f) (Root d1 +:+ f)) as [same2 [err2|]]; try done.
  by subst same2.
Qed.

(** X7: Swapping the two directories does not change whether an entry is
    reported modified, provided the entry is matched both ways, can be
    stat-ed under both roots, and is of the same kind under both: an
    archive name under both or under neither, a directory under both or
    under neither. *)
Theorem modified_both_ways d1 d2 f f1stat f2stat :
  stat (fs (Root d1 +:+ f)) = Ok f1stat ->
  stat (fs (Root d2 +:+ f)) = Ok f2stat ->
  isTar (Root d1 +:+ f) = isTar (Root d2 +:+ f) ->
  FileInfo.IsDir f1stat = FileInfo.IsDir f2stat ->
  f ∈ GetMatches (Content d1) (Content d2) ->
  f ∈ GetMatches (Content d2) (Content d1) ->
  exists modified12 modified21,
    value (GetModifiedEntries fs isTar GetMatches d1 d2) = Return modified12 /\
    value (GetModifiedEntries fs isTar GetMatches d2 d1) = Return modified21 /\
    (f ∈ modified12 <-> f ∈ modified21).
Proof.
  intros H1 H2 Htar Hdir Hm12 Hm21.
  destruct (elem_of_GetModifiedEntries fs isTar GetMatches d1 d2 f) as (m12 & Hv12 & Hin12).
  destruct (elem_of_GetModifiedEntries fs isTar GetMatches d2 d1 f) as (m21 & Hv21 & Hin21).
  exists m12, m21. split; [done|]. split; [done|].
  rewrite Hin12, Hin21, <- (entry_modified_sym d1 d2 f f1stat f2stat) by done.
  logic_solver.
Qed.

(** *** What [GetSize] asks of the disk, and where its walk stops *)

Lemma GetSize_events path e :
  e ∈ trace (GetSize fs filepath_Join path) ->
  e = EvStat path \/ e = EvWalk path \/ exists line, e = EvLog line.
Proof.
  unfold GetSize, getDirectorySize, filepath_Walk. io_unfold. simpl.
  destruct (stat (fs path)) as [[[] sz]|err]; simpl; [|trace_solver..].
  destruct (Walk fs filepath_Join getDirectorySize_walkFn path 0) as [[[err|] sz']|msg];
    simpl; trace_solver.
Qed.

(** X8: [GetSize] starts with one stat of its path; after it there is at
    most the walk of that path and log lines.  It never reads a file
    and never stats another path by [os.Stat]. *)
Theorem GetSize_stats_and_walks_only path :
  exists rest,
    trace (GetSize fs filepath_Join path) = EvStat path :: rest /\
    Forall (fun e => e = EvWalk path \/ exists line, e = EvLog line) rest.
Proof.
  unfold GetSize, getDirectorySize, filepath_Walk. io_unfold. simpl.
  destruct (stat (fs path)) as [[[] sz]|err]; simpl;
    [|eexists; split; [done|]; events_solver..].
  destruct (Walk fs filepath_Join getDirectorySize_walkFn path 0) as [[[err|] sz']|msg];
    simpl; eexists; (split; [done|]); events_solver.
Qed.

Lemma createDirectoryEntries_events root names e :
  e ∈ trace (createDirectoryEntries fs filepath_Join root names) ->
  exists path, e = EvStat path \/ e = EvWalk path \/ exists line, e = EvLog line.
Proof.
  intros (name & acc & _ & He)%elem_of_trace_for_range.
  apply elem_of_trace_bind in He as [He|(size & _ & He)].
  - eexists. by eapply GetSize_events.
  - io_unfold. simpl in He. by apply elem_of_nil in He.
Qed.

Lemma createEntryDiffs_events root1 root2 names e :
  e ∈ trace (createEntryDiffs fs filepath_Join root1 root2 names) ->
  exists path, e = EvStat path \/ e = EvWalk path \/ exists line, e = EvLog line.
Proof.
  intros (name & acc & _ & He)%elem_of_trace_for_range.
  apply elem_of_trace_bind in He as [He|(size1 & _ & He)].
  { eexists. by eapply GetSize_events. }
  apply elem_of_trace_bind in He as [He|(size2 & _ & He)].
  - eexists. by eapply GetSize_events.
  - io_unfold. simpl in He. by apply elem_of_nil in He.
Qed.

(** X9: Of all that [DiffDirectory] does, only the comparison of a matched
    entry without an archive name reads the content of a file, and it
    reads the entry under one of the two roots: sizes come from stat
    and from walks alone. *)
Theorem DiffDirectory_reads_matched_entries_only d1 d2 path :
  EvReadFile path ∈
    trace (DiffDirectory fs filepath_Join isTar GetMatches GetAdditions GetDeletions d1 d2) ->
  exists g,
    g ∈ GetMatches (Content d1) (Content d2) /\
    isTar (Root d1 +:+ g) = false /\
    (path = Root d1 +:+ g \/ path = Root d2 +:+ g).
Proof.
  unfold DiffDirectory.
  intros [He|(adds & _ & He)]%elem_of_trace_bind.
  { apply createDirectoryEntries_events in He as [p He]. logic_solver. }
  apply elem_of_trace_bind in He as [He|(dels & _ & He)].
  { apply createDirectoryEntries_events in He as [p He]. logic_solver. }
  apply elem_of_trace_bind in He as [He|(mods & _ & He)].
  { apply elem_of_trace_for_range in He as (g & acc & Hg & He).
    exists g. split; [done|]. by eapply GetModifiedEntries_body_read. }
  apply elem_of_trace_bind in He as [He|(ents & _ & He)].
  { apply createEntryDiffs_events in He as [p He]. logic_solver. }
  io_unfold. simpl in He. by apply elem_of_nil in He.
Qed.

(** X10: For a path that is itself a directory, in which every directory
    can be listed and every name stat-ed, [GetSize] makes one stat and
    one walk, logs nothing, and returns the [int64] sum of the sizes of
    everything below it that is not a directory (a link below it
    counts with the size of the link): the plain sum as long as that
    fits.  For a path that is a link to a directory, the stat sees the
    directory but the walk does not follow the link, and [GetSize]
    returns the size of the link itself. *)
Theorem GetSize_of_walkable_directory path :
  (forall size listing children,
     fs path = Folder size listing children ->
     readable (fs path) = true ->
     GetSize fs filepath_Join path =
       (Return (wrap64 (tree_size (fs path))), [EvStat path; EvWalk path]) /\
     (- 2 ^ 63 <= tree_size (fs path) < 2 ^ 63 ->
      value (GetSize fs filepath_Join path) = Return (tree_size (fs path)))) /\
  (forall size target info,
     fs path = Link size target ->
     stat target = Ok info ->
     FileInfo.IsDir info = true ->
     GetSize fs filepath_Join path = (Return (wrap64 size), [EvStat path; EvWalk path])).
Proof.
  split.
  - intros size listing children H Hr.
    rewrite (GetSize_readable_directory fs filepath_Join _ _ _ _ H Hr).
    split; [done|]. intros Hrange. simpl. by rewrite wrap64_small.
  - intros size target info H Ht Hdir.
    by rewrite (GetSize_link fs filepath_Join _ _ _ H), Ht, Hdir.
Qed.

(** Inside a directory that can be listed: the entries before the first
    one that stops the walk are added up, and the walk ends with the
    error of a subdirectory that cannot be listed, or panics on a name
    that cannot be stat-ed. *)
Lemma walk_stops size before name child after path :
  forallb (fun c => readable (snd c)) before = true ->
  walk filepath_Join getDirectorySize_walkFn path
       (Folder size None (before ++ (name, child) :: after)) 0 =
  match child with
  | Missing _ => Panic nil_dereference
  | Folder _ (Some msg) _ =>
      Return (Some (PathError msg), wrap64 (tree_size (Folder size None before)))
  | _ =>
      walk filepath_Join getDirectorySize_walkFn path
           (Folder size None (before ++ (name, child) :: after)) 0
  end.
Proof.
  intros Hr. destruct child as [msg|sz body|sz [msg|] children|sz target]; try done; simpl.
  - match goal with
    | |- ?loop (before ++ _) 0 = _ =>
        enough (forall z, loop (before ++ (name, Missing msg) :: after) (wrap64 z) =
                          Panic nil_dereference) as Hloop by apply (Hloop 0)
    end.
    induction before as [|[n c] before IH]; intros z; [done|].
    simpl in Hr. apply andb_prop in Hr as [Hc Hcs]. simpl.
    pose proof (walk_readable filepath_Join c Hc (filepath_Join path n) z) as Hw.
    destruct c as [?|sz' body|sz' listing children|sz' target]; [done|..];
      rewrite Hw; by apply IH.
  - match goal with
    | |- ?loop (before ++ _) 0 = _ =>
        enough (forall z,
                  loop (before ++ (name, Folder sz (Some msg) children) :: after) (wrap64 z) =
                  Return (Some (PathError msg),
                          wrap64 (z + foldr (fun c acc => tree_size (snd c) + acc) 0 before)))
          as Hloop by apply (Hloop 0)
    end.
    induction before as [|[n c] before IH]; intros z.
    { simpl. by rewrite Z.add_0_r. }
    simpl in Hr. apply andb_prop in Hr as [Hc Hcs]. simpl.
    pose proof (walk_readable filepath_Join c Hc (filepath_Join path n) z) as Hw.
    destruct c as [?|sz' body|sz' listing children'|sz' target]; [done|..];
      rewrite Hw, (IH Hcs); do 3 f_equal; lia.
Qed.

(** X11: When the walk of a directory comes to a subdirectory that cannot be
    listed, [GetSize] logs the error and returns the [int64] sum of the
    sizes met before it, the plain sum as long as that fits: what comes
    after in the walk is not counted. *)
Theorem GetSize_stops_at_unlistable_directory path size before name size' msg children after :
  fs path = Folder size None (before ++ (name, Folder size' (Some msg) children) :: after) ->
  forallb (fun c => readable (snd c)) before = true ->
  GetSize fs filepath_Join path =
    (Return (wrap64 (tree_size (Folder size None before))),
     [EvStat path; EvWalk path;
      EvLog ("Could not obtain directory size for " +:+ path +:+ ": " +:+ msg)]) /\
  (- 2 ^ 63 <= tree_size (Folder size None before) < 2 ^ 63 ->
   value (GetSize fs filepath_Join path) = Return (tree_size (Folder size None before))).
Proof.
  intros H Hr.
  assert (GetSize fs filepath_Join path =
          (Return (wrap64 (tree_size (Folder size None before))),
           [EvStat path; EvWalk path;
            EvLog ("Could not obtain directory size for " +:+ path +:+ ": " +:+ msg)]))
    as Hv.
  { unfold GetSize, getDirectorySize, filepath_Walk, Walk. io_unfold.
    rewrite H. rewrite (walk_stops _ _ _ _ _ _ Hr). done. }
  split; [done|]. intros Hrange. rewrite Hv. unfold value. simpl fst.
  by rewrite wrap64_small.
Qed.

(** X12: When the walk of a directory comes to a name that cannot be
    stat-ed, [GetSize] panics: the walk function asks a nil [FileInfo]
    whether it is a directory. *)
Theorem GetSize_panics_on_unstatable_entry path size before name msg after :
  fs path = Folder size None (before ++ (name, Missing msg) :: after) ->
  forallb (fun c => readable (snd c)) before = true ->
  GetSize fs filepath_Join path = (Panic nil_dereference, [EvStat path; EvWalk path]).
Proof.
  intros H Hr. unfold GetSize, getDirectorySize, filepath_Walk, Walk. io_unfold.
  rewrite H. rewrite (walk_stops _ _ _ _ _ _ Hr). done.
Qed.


(** X14: If the additions from the content of [d1] to that of [d2] are, up
    to order, the deletions from [d2] to [d1], and the other way round,
    then the entries added from [d1] to [d2] are exactly the entries
    deleted from [d2] to [d1], with the same sizes and in the same
    order, and the other way round. *)
Theorem DiffDirectory_swap d1 d2 diff12 same12 diff21 same21 :
  GetAdditions (Content d1) (Content d2) ≡ₚ GetDeletions (Content d2) (Content d1) ->
  GetDeletions (Content d1) (Content d2) ≡ₚ GetAdditions (Content d2) (Content d1) ->
  value (DiffDirectory fs filepath_Join isTar GetMatches GetAdditions GetDeletions d1 d2) =
    Return (diff12, same12) ->
  value (DiffDirectory fs filepath_Join isTar GetMatches GetAdditions GetDeletions d2 d1) =
    Return (diff21, same21) ->
  Adds diff12 = Dels diff21 /\ Dels diff12 = Adds diff21.
Proof.
  intros Hadd Hdel (Ha12 & Hd12 & _)%DiffDirectory_returned
    (Ha21 & Hd21 & _)%DiffDirectory_returned.
  assert (forall l k : list string, l ≡ₚ k -> sort_Strings l = sort_Strings k) as Hsort.
  { intros l k Hlk. unfold sort_Strings.
    apply (Sorted_unique String.le); try apply (Sorted_merge_sort _).
    by rewrite !merge_sort_Permutation. }
  rewrite (Hsort _ _ Hadd), Hd21 in Ha12. rewrite (Hsort _ _ Hdel), Ha21 in Hd12.
  split; congruence.
Qed.

End ComparisonFacts.

(** *** Strings *)

Lemma length_app (s t : string) :
  String.length (s +:+ t) = (String.length s + String.length t)%nat.
Proof. induction s as [|a s IH]; simpl; [done|]. by rewrite IH. Qed.

Lemma substring_0_app (s t : string) :
  String.substring 0 (String.length s) (s +:+ t) = s.
Proof.
  induction s as [|a s IH]; simpl.
  - by destruct t.
  - by rewrite IH.
Qed.

Lemma substring_all (s : string) : String.substring 0 (String.length s) s = s.
Proof. induction s as [|a s IH]; simpl; [done|]. by rewrite IH. Qed.

Lemma substring_length_app (s t : string) :
  String.substring (String.length s) (String.length t) (s +:+ t) = t.
Proof. induction s as [|a s IH]; simpl; [apply substring_all|done]. Qed.

Lemma substring_split (n : nat) (s : string) :
  (n <= String.length s)%nat ->
  String.substring 0 n s +:+ String.substring n (String.length s - n) s = s.
Proof.
  revert n. induction s as [|a s IH]; intros [|n] Hn; simpl in Hn; simpl;
    try done; try lia.
  - by rewrite substring_all.
  - change (String a (String.substring 0 n s +:+
                      String.substring n (String.length s - n) s) = String a s).
    rewrite IH by lia. done.
Qed.

(** Trimming the suffix that has just been appended gives the string
    back, and so does trimming a prefix. *)
Lemma strings_TrimSuffix_app (s suffix : string) :
  strings_TrimSuffix (s +:+ suffix) suffix = s.
Proof.
  unfold strings_TrimSuffix, strings_HasSuffix. rewrite length_app.
  replace (String.length s + String.length suffix - String.length suffix)%nat
    with (String.length s) by lia.
  rewrite substring_length_app, String.eqb_refl, substring_0_app.
  by rewrite (proj2 (Nat.leb_le _ _)) by lia.
Qed.

Lemma strings_TrimPrefix_app (prefix s : string) :
  strings_TrimPrefix (prefix +:+ s) prefix = s.
Proof.
  unfold strings_TrimPrefix, strings_HasPrefix. rewrite length_app.
  replace (String.length prefix + String.length s - String.length prefix)%nat
    with (String.length s) by lia.
  rewrite substring_0_app, String.eqb_refl, substring_length_app.
  by rewrite (proj2 (Nat.leb_le _ _)) by lia.
Qed.

(** What is trimmed is the suffix, and nothing else. *)
Lemma strings_TrimSuffix_cases (s suffix : string) :
  (strings_HasSuffix s suffix = true /\ strings_TrimSuffix s suffix +:+ suffix = s) \/
  (strings_HasSuffix s suffix = false /\ strings_TrimSuffix s suffix = s).
Proof.
  unfold strings_TrimSuffix. destruct (strings_HasSuffix s suffix) eqn:H; [left|by right].
  split; [done|]. unfold strings_HasSuffix in H.
  apply andb_prop in H as [Hlen Heq]. apply Nat.leb_le in Hlen.
  apply String.eqb_eq in Heq.
  pose proof (substring_split (String.length s - String.length suffix) s) as Hs.
  replace (String.length s - (String.length s - String.length suffix))%nat
    with (String.length suffix) in Hs by lia.
  rewrite Heq in Hs. apply Hs. lia.
Qed.

Section PackageDiffersFacts.

Context {Image PackageInfo PackageDiff MultiVersionPackageDiff World : Type}.
Variable Source : Image -> string.
Variable PackageDiff_zero : PackageDiff.
Variable MultiVersionPackageDiff_zero : MultiVersionPackageDiff.
Variable GetMapDiff :
  gmap string PackageInfo -> gmap string PackageInfo -> PackageDiff.
Variable GetMultiVersionMapDiff :
  gmap string (gmap string PackageInfo) -> gmap string (gmap string PackageInfo) ->
  MultiVersionPackageDiff.

Local Abbreviation multi := (multiVersionDiff Source MultiVersionPackageDiff_zero GetMultiVersionMapDiff).
Local Abbreviation single := (singleVersionDiff Source PackageDiff_zero GetMapDiff).

(** Recording the calls changes nothing else. *)
Lemma mv_recording_transparent image1 image2
    (differ : @MultiVersionPackageAnalyzer Image PackageInfo World) w calls :
  let '(r, (w', _)) := multi image1 image2 (mv_recording differ) (w, calls) in
  multi image1 image2 differ w = (r, w').
Proof.
  unfold multiVersionDiff. simpl.
  destruct (mv_getPackages differ image1 w) as [[pack1 [err|]] w1]; [done|].
  destruct (mv_getPackages differ image2 w1) as [[pack2 [err|]] w2]; [done|].
  by destruct (mv_Name differ w2).
Qed.

Lemma sv_recording_transparent image1 image2
    (differ : @SingleVersionPackageAnalyzer Image PackageInfo World) w calls :
  let '(r, (w', _)) := single image1 image2 (sv_recording differ) (w, calls) in
  single image1 image2 differ w = (r, w').
Proof.
  unfold singleVersionDiff. simpl.
  destruct (sv_getPackages differ image1 w) as [[pack1 [err|]] w1]; [done|].
  destruct (sv_getPackages differ image2 w1) as [[pack2 [err|]] w2]; [done|].
  by destruct (sv_Name differ w2).
Qed.

(** C3: when the fetch of the first or of the second inventory fails,
    [multiVersionDiff] and [singleVersionDiff] return that error and a
    pointer to the zero value of the result structure; when both
    succeed they return a nil error and the two sources, the name of
    the analyzer without its suffix and the diff of the two
    inventories; the pointer is never nil. *)
Theorem fetch_failure_returns_zero_value image1 image2
    (mv : @MultiVersionPackageAnalyzer Image PackageInfo World)
    (sv : @SingleVersionPackageAnalyzer Image PackageInfo World) w :
  ((forall pack1 err w1,
      mv_getPackages mv image1 w = ((pack1, Some err), w1) ->
      multi image1 image2 mv w =
      ((Some (MultiVersionPackageDiffResult_zero MultiVersionPackageDiff_zero), Some err), w1)) /\
   (forall pack1 w1 pack2 err w2,
      mv_getPackages mv image1 w = ((pack1, None), w1) ->
      mv_getPackages mv image2 w1 = ((pack2, Some err), w2) ->
      multi image1 image2 mv w =
      ((Some (MultiVersionPackageDiffResult_zero MultiVersionPackageDiff_zero), Some err), w2)) /\
   (forall pack1 w1 pack2 w2 name w3,
      mv_getPackages mv image1 w = ((pack1, None), w1) ->
      mv_getPackages mv image2 w1 = ((pack2, None), w2) ->
      mv_Name mv w2 = (name, w3) ->
      multi image1 image2 mv w =
      ((Some {| mv_Image1 := Source image1;
                mv_Image2 := Source image2;
                mv_DiffType := strings_TrimSuffix name "Analyzer";
                mv_Diff := GetMultiVersionMapDiff pack1 pack2 |}, None), w3)) /\
   fst (fst (multi image1 image2 mv w)) <> None) /\
  ((forall pack1 err w1,
      sv_getPackages sv image1 w = ((pack1, Some err), w1) ->
      single image1 image2 sv w =
      ((Some (SingleVersionPackageDiffResult_zero PackageDiff_zero), Some err), w1)) /\
   (forall pack1 w1 pack2 err w2,
      sv_getPackages sv image1 w = ((pack1, None), w1) ->
      sv_getPackages sv image2 w1 = ((pack2, Some err), w2) ->
      single image1 image2 sv w =
      ((Some (SingleVersionPackageDiffResult_zero PackageDiff_zero), Some err), w2)) /\
   (forall pack1 w1 pack2 w2 name w3,
      sv_getPackages sv image1 w = ((pack1, None), w1) ->
      sv_getPackages sv image2 w1 = ((pack2, None), w2) ->
      sv_Name sv w2 = (name, w3) ->
      single image1 image2 sv w =
      ((Some {| sv_Image1 := Source image1;
                sv_Image2 := Source image2;
                sv_DiffType := strings_TrimSuffix name "Analyzer";
                sv_Diff := GetMapDiff pack1 pack2 |}, None), w3)) /\
   fst (fst (single image1 image2 sv w)) <> None).
Proof.
  split.
  - unfold multiVersionDiff. repeat split.
    + by intros pack1 err w1 ->.
    + by intros pack1 w1 pack2 err w2 -> ->.
    + by intros pack1 w1 pack2 w2 name w3 -> -> ->.
    + destruct (mv_getPackages mv image1 w) as [[pack1 [err|]] w1]; [done|].
      destruct (mv_getPackages mv image2 w1) as [[pack2 [err|]] w2]; [done|].
      by destruct (mv_Name mv w2).
  - unfold singleVersionDiff. repeat split.
    + by intros pack1 err w1 ->.
    + by intros pack1 w1 pack2 err w2 -> ->.
    + by intros pack1 w1 pack2 w2 name w3 -> -> ->.
    + destruct (sv_getPackages sv image1 w) as [[pack1 [err|]] w1]; [done|].
      destruct (sv_getPackages sv image2 w1) as [[pack2 [err|]] w2]; [done|].
      by destruct (sv_Name sv w2).
Qed.

(** C10: when the fetch of the first inventory fails, the world is left
    as that fetch left it, and an analyzer that records its calls has
    recorded the call for the first image only: [getPackages] is not
    called for the second image. *)
Theorem first_failure_skips_second_fetch image1 image2
    (mv : @MultiVersionPackageAnalyzer Image PackageInfo World)
    (sv : @SingleVersionPackageAnalyzer Image PackageInfo World) w :
  (forall pack1 err w1,
     mv_getPackages mv image1 w = ((pack1, Some err), w1) ->
     snd (multi image1 image2 mv w) = w1 /\
     snd (multi image1 image2 (mv_recording mv) (w, [])) = (w1, [image1])) /\
  (forall pack1 err w1,
     sv_getPackages sv image1 w = ((pack1, Some err), w1) ->
     snd (single image1 image2 sv w) = w1 /\
     snd (single image1 image2 (sv_recording sv) (w, [])) = (w1, [image1])).
Proof.
  split; intros pack1 err w1 H.
  - unfold multiVersionDiff. simpl. by rewrite H.
  - unfold singleVersionDiff. simpl. by rewrite H.
Qed.

(** When the first fetch succeeds the second image is fetched: the
    record of calls is then the first image followed by the second. *)
Lemma first_success_fetches_second image1 image2
    (mv : @MultiVersionPackageAnalyzer Image PackageInfo World) w pack1 w1 :
  mv_getPackages mv image1 w = ((pack1, None), w1) ->
  snd (snd (multi image1 image2 (mv_recording mv) (w, []))) = [image1; image2].
Proof.
  intros H. unfold multiVersionDiff. simpl. rewrite H.
  destruct (mv_getPackages mv image2 w1) as [[pack2 [err|]] w2]; [done|].
  by destruct (mv_Name mv w2).
Qed.

End PackageDiffersFacts.

(** *** [GetDirectory] *)

Lemma app_empty_r (s : string) : s +:+ "" = s.
Proof.
  induction s as [|a s IH]; [done|].
  change (String a (s +:+ "") = String a s). by rewrite IH.
Qed.

Lemma app_assoc_string (s t u : string) : (s +:+ t) +:+ u = s +:+ (t +:+ u).
Proof.
  induction s as [|a s IH]; [done|].
  change (String a ((s +:+ t) +:+ u) = String a (s +:+ (t +:+ u))). by rewrite IH.
Qed.

Lemma app_separator_nonempty (s t : string) : String.eqb (s +:+ "/" +:+ t) "" = false.
Proof. by destruct s. Qed.

Lemma substring_none (n : nat) (s : string) : String.substring n 0 s = "".
Proof. revert n. induction s as [|a s IH]; intros [|n]; simpl; try done. Qed.

Lemma strings_TrimPrefix_self (s : string) : strings_TrimPrefix s s = "".
Proof.
  unfold strings_TrimPrefix, strings_HasPrefix.
  rewrite Nat.leb_refl, substring_all, String.eqb_refl, Nat.sub_diag. simpl.
  apply substring_none.
Qed.

Section DirectoryListingFacts.

Variable fs : string -> node.
Variable filepath_Join : string -> string -> string.

(** One call of the walk function appends at most one path, never the
    empty one, and never stops the walk. *)
Lemma GetDirectory_walkFn_step root currPath info err content :
  exists step,
    GetDirectory_walkFn root currPath info err content = Return (None, content ++ step) /\
    Forall (fun p => p <> "") step.
Proof.
  unfold GetDirectory_walkFn.
  destruct (String.eqb_spec (strings_TrimPrefix currPath root) "") as [Heq|Hne]; simpl.
  - exists []. rewrite app_nil_r. by split.
  - eexists. split; [done|]. by constructor.
Qed.

(** A walk function that only ever appends to what it has collected,
    and never stops the walk, makes a walk that does the same. *)
Lemma walk_collects {A}
    (walkFn : string -> option FileInfo.t -> option error -> list A ->
              outcome (option error * list A)) (P : A -> Prop) n :
  (forall path info err content,
     exists step, walkFn path info err content = Return (None, content ++ step) /\
                  Forall P step) ->
  forall path content,
    exists new,
      walk filepath_Join walkFn path n content = Return (None, content ++ new) /\
      Forall P new.
Proof.
  intros Hstep.
  induction n as [msg|sz body|sz listing children IH|sz target _] using node_nested_ind;
    intros path content; simpl; try apply Hstep.
  destruct listing as [msg|]; [apply Hstep|].
  destruct (Hstep path (Some (FileInfo.mk true sz)) None content) as (step & -> & Hs).
  match goal with
  | |- exists new, ?loop children (content ++ step) = _ /\ _ =>
      enough (forall content0,
                exists new, loop children content0 = Return (None, content0 ++ new) /\
                            Forall P new) as Hloop
  end.
  { destruct (Hloop (content ++ step)) as (new & -> & Hnew).
    exists (step ++ new). rewrite app_assoc. split; [done|]. by apply Forall_app. }
  induction children as [|[name c] children IHc]; intros content0.
  - exists []. rewrite app_nil_r. by split.
  - inversion_clear IH as [|?? IHhead IHtail]. simpl in IHhead.
    destruct (IHhead (filepath_Join path name) content0) as (new1 & Hw & Hnew1).
    destruct (IHc IHtail (content0 ++ new1)) as (new2 & Hl & Hnew2).
    exists (new1 ++ new2). rewrite app_assoc.
    split; [|by apply Forall_app].
    destruct c as [msg|sz' body|sz' listing' children'|sz' target];
      [simpl in Hw|..]; rewrite Hw; exact Hl.
Qed.

(** X15: The deep listing returns on every disk and for every path, with a
    nil error; its root is the path it was given and no entry of its
    content is the empty path. *)
Theorem GetDirectory_deep_never_fails path :
  exists content,
    GetDirectory fs filepath_Join path true =
    Return ({| Root := path; Content := content |}, None) /\
    "" ∉ content.
Proof.
  unfold GetDirectory, Walk.
  destruct (walk_collects (GetDirectory_walkFn path) (fun p => p <> "") (fs path)
              (GetDirectory_walkFn_step path) path []) as (new & -> & Hnew).
  exists new. split; [done|]. intros Hin.
  by apply (proj1 (Forall_forall _ _) Hnew "").
Qed.

(** Over a tree that can be walked to the end, a walk function that
    appends the path it is called with, relative to [root] and unless
    that is empty, collects the relative paths of the tree. *)
Lemma walk_collects_descendants
    (walkFn : string -> option FileInfo.t -> option error -> list string ->
              outcome (option error * list string)) root n :
  (forall rel info err content,
     walkFn (root +:+ rel) info err content =
     Return (None, content ++ if String.eqb rel "" then [] else [rel])) ->
  readable n = true ->
  forall rel content,
    join_separates filepath_Join (root +:+ rel) n = true ->
    walk filepath_Join walkFn (root +:+ rel) n content =
    Return (None, content ++ (if String.eqb rel "" then [] else [rel]) ++ descendants rel n).
Proof.
  intros Hfn.
  induction n as [msg|sz body|sz listing children IH|sz target _] using node_nested_ind;
    intros Hr rel content Hj; simpl in Hr; simpl;
    [done|by rewrite Hfn, app_nil_r| |by rewrite Hfn, app_nil_r].
  destruct listing as [msg|]; [done|]. simpl in Hr. rewrite Hfn.
  set (self := if String.eqb rel "" then [] else [rel]).
  match goal with
  | |- ?loop children (content ++ self) = _ =>
      enough (forall content0,
                loop children content0 =
                Return (None, content0 ++
                          concat (map (fun c => (rel +:+ "/" +:+ fst c)
                                                  :: descendants (rel +:+ "/" +:+ fst c) (snd c))
                                      children))) as Hloop
  end.
  { rewrite Hloop. by rewrite <- app_assoc. }
  simpl in Hj.
  induction children as [|[name c] children IHc]; intros content0; simpl.
  { by rewrite app_nil_r. }
  simpl in Hr, Hj. apply andb_prop in Hr as [Hc Hcs].
  apply andb_prop in Hj as [[Hjoin Hjc]%andb_prop Hjs].
  apply String.eqb_eq in Hjoin.
  inversion_clear IH as [|?? IHhead IHtail]. simpl in IHhead.
  rewrite Hjoin. rewrite app_assoc_string in Hjc |- *.
  specialize (IHhead Hc (rel +:+ "/" +:+ name) content0 Hjc).
  rewrite app_separator_nonempty in IHhead.
  destruct c as [msg|sz' body|sz' listing' children'|sz' target]; [done|..];
    rewrite IHhead, (IHc IHtail Hcs Hjs); by rewrite <- !app_assoc.
Qed.

Lemma GetDirectory_walkFn_rel root rel info err content :
  GetDirectory_walkFn root (root +:+ rel) info err content =
  Return (None, content ++ if String.eqb rel "" then [] else [rel]).
Proof.
  unfold GetDirectory_walkFn. rewrite strings_TrimPrefix_app.
  destruct (String.eqb rel ""); simpl; [by rewrite app_nil_r|done].
Qed.

Lemma GetDirectory_deep_readable path :
  readable (fs path) = true ->
  join_separates filepath_Join path (fs path) = true ->
  GetDirectory fs filepath_Join path true =
  Return ({| Root := path; Content := descendants "" (fs path) |}, None).
Proof.
  intros Hr Hj. unfold GetDirectory, Walk.
  pose proof (walk_collects_descendants (GetDirectory_walkFn path) path (fs path)
                (GetDirectory_walkFn_rel path) Hr "" []) as Hw.
  rewrite app_empty_r in Hw. by rewrite (Hw Hj).
Qed.

(** X16: The deep listing of a directory that can be walked to the end holds
    the relative path of everything below it, directories included, in
    the order of the walk, each starting with a separator. *)
Theorem GetDirectory_deep_lists_descendants path :
  readable (fs path) = true ->
  join_separates filepath_Join path (fs path) = true ->
  GetDirectory fs filepath_Join path true =
  Return ({| Root := path; Content := descendants "" (fs path) |}, None).
Proof. apply GetDirectory_deep_readable. Qed.

(** X17: What is listed of a path that does not name a directory, also
    through links: the deep listing is empty and comes with no error,
    the shallow one is empty and comes with the error. *)
Theorem GetDirectory_of_non_directory path :
  (forall size listing children, follow (fs path) <> Folder size listing children) ->
  GetDirectory fs filepath_Join path true = Return ({| Root := path; Content := [] |}, None) /\
  exists err,
    GetDirectory fs filepath_Join path false =
    Return ({| Root := path; Content := [] |}, Some err).
Proof.
  intros Hn. split.
  - unfold GetDirectory, Walk, GetDirectory_walkFn.
    destruct (fs path) as [msg|sz body|sz listing children|sz target] eqn:H; simpl;
      try (rewrite strings_TrimPrefix_self; simpl; done).
    by destruct (Hn sz listing children).
  - unfold GetDirectory, ioutil_ReadDir.
    destruct (follow (fs path)) as [msg|sz body|sz listing children|sz target] eqn:H;
      eauto.
    by destruct (Hn sz listing children).
Qed.

Lemma foldl_append_names (contents : list (string * FileInfo.t)) content :
  foldl (fun content file => content ++ ["/" +:+ fst file]) content contents =
  content ++ map (fun file => "/" +:+ fst file) contents.
Proof.
  revert content. induction contents as [|file contents IH]; intros content; simpl.
  - by rewrite app_nil_r.
  - by rewrite IH, <- app_assoc.
Qed.

Lemma lstat_all_names children infos :
  lstat_all children = Ok infos ->
  map fst infos = map fst children /\
  forallb (fun c => match snd c with Missing _ => false | _ => true end) children = true.
Proof.
  revert infos. induction children as [|[name c] children IH]; intros infos; simpl.
  - by intros [= <-].
  - destruct (lstat c) as [info|err] eqn:Hc; [|done].
    destruct (lstat_all children) as [infos'|err]; [|done].
    intros [= <-]. destruct (IH _ eq_refl) as [Hn Hok]. simpl.
    rewrite Hn, Hok. by destruct c.
Qed.



(** X18: The shallow listing never panics.  With a nil error, the path names
    a directory (maybe through links) that could be listed, every name
    in it could be stat-ed, and the content is a separator followed by
    each name, in order; with an error, the content is empty. *)
Theorem GetDirectory_shallow_lists_children path :
  match GetDirectory fs filepath_Join path false with
  | Return (d, None) =>
      Root d = path /\
      exists size children,
        follow (fs path) = Folder size None children /\
        forallb (fun c => match snd c with Missing _ => false | _ => true end) children
          = true /\
        Content d = map (fun c => "/" +:+ fst c) children
  | Return (d, Some err) =>
      d = {| Root := path; Content := [] |} /\ ioutil_ReadDir (fs path) = Err err
  | Panic _ => False
  end.
Proof.
  unfold GetDirectory.
  destruct (ioutil_ReadDir (fs path)) as [infos|err] eqn:H; [|done].
  split; [done|]. unfold ioutil_ReadDir in H.
  destruct (follow (fs path)) as [msg|sz body|sz [msg|] children|sz target]; try done.
  apply lstat_all_names in H as [Hnames Hok].
  exists sz, children. repeat split; [done|].
  simpl. rewrite foldl_append_names. simpl.
  rewrite <- (map_map fst (fun name => "/" +:+ name)), Hnames. by rewrite map_map.
Qed.



End DirectoryListingFacts.

(** *** The analyses, the calls that are made, and the label *)

Section PackageAnalysisFacts.

Context {Image PackageInfo PackageDiff MultiVersionPackageDiff World : Type}.
Variable Source : Image -> string.
Variable PackageDiff_zero : PackageDiff.
Variable MultiVersionPackageDiff_zero : MultiVersionPackageDiff.
Variable GetMapDiff :
  gmap string PackageInfo -> gmap string PackageInfo -> PackageDiff.
Variable GetMultiVersionMapDiff :
  gmap string (gmap string PackageInfo) -> gmap string (gmap string PackageInfo) ->
  MultiVersionPackageDiff.

Local Abbreviation multi := (multiVersionDiff Source MultiVersionPackageDiff_zero GetMultiVersionMapDiff).
Local Abbreviation single := (singleVersionDiff Source PackageDiff_zero GetMapDiff).

(** X20: The analyses of one image: a failed fetch gives the error and a
    pointer to the zero value, a successful one gives a nil error, the
    source of the image, the name of the analyzer without its suffix
    and the inventory as it was fetched; the pointer is never nil. *)
Theorem analysis_wraps_the_inventory image
    (mv : @MultiVersionPackageAnalyzer Image PackageInfo World)
    (sv : @SingleVersionPackageAnalyzer Image PackageInfo World) w :
  ((forall pack err w1,
      mv_getPackages mv image w = ((pack, Some err), w1) ->
      multiVersionAnalysis Source image mv w =
      ((Some MultiVersionPackageAnalyzeResult_zero, Some err), w1)) /\
   (forall pack w1 name w2,
      mv_getPackages mv image w = ((pack, None), w1) ->
      mv_Name mv w1 = (name, w2) ->
      multiVersionAnalysis Source image mv w =
      ((Some {| mv_Image := Source image;
                mv_AnalyzeType := strings_TrimSuffix name "Analyzer";
                mv_Analysis := pack |}, None), w2)) /\
   fst (fst (multiVersionAnalysis Source image mv w)) <> None) /\
  ((forall pack err w1,
      sv_getPackages sv image w = ((pack, Some err), w1) ->
      singleVersionAnalysis Source image sv w =
      ((Some SingleVersionPackageAnalyzeResult_zero, Some err), w1)) /\
   (forall pack w1 name w2,
      sv_getPackages sv image w = ((pack, None), w1) ->
      sv_Name sv w1 = (name, w2) ->
      singleVersionAnalysis Source image sv w =
      ((Some {| sv_Image := Source image;
                sv_AnalyzeType := strings_TrimSuffix name "Analyzer";
                sv_Analysis := pack |}, None), w2)) /\
   fst (fst (singleVersionAnalysis Source image sv w)) <> None).
Proof.
  split.
  - unfold multiVersionAnalysis. repeat split.
    + by intros pack err w1 ->.
    + by intros pack w1 name w2 -> ->.
    + destruct (mv_getPackages mv image w) as [[pack [err|]] w1]; [done|].
      by destruct (mv_Name mv w1).
  - unfold singleVersionAnalysis. repeat split.
    + by intros pack err w1 ->.
    + by intros pack w1 name w2 -> ->.
    + destruct (sv_getPackages sv image w) as [[pack [err|]] w1]; [done|].
      by destruct (sv_Name sv w1).
Qed.

(** X21: An analysis fetches the inventory of its image once, whether the
    fetch fails or not. *)
Theorem analysis_fetches_once image
    (mv : @MultiVersionPackageAnalyzer Image PackageInfo World)
    (sv : @SingleVersionPackageAnalyzer Image PackageInfo World) w :
  snd (snd (multiVersionAnalysis Source image (mv_recording mv) (w, []))) = [image] /\
  snd (snd (singleVersionAnalysis Source image (sv_recording sv) (w, []))) = [image].
Proof.
  split.
  - unfold multiVersionAnalysis. simpl.
    destruct (mv_getPackages mv image w) as [[pack [err|]] w1]; [done|].
    by destruct (mv_Name mv w1).
  - unfold singleVersionAnalysis. simpl.
    destruct (sv_getPackages sv image w) as [[pack [err|]] w1]; [done|].
    by destruct (sv_Name sv w1).
Qed.

(** X22: A diff fetches the first image, and then the second exactly when
    the first fetch has succeeded; nothing is fetched twice or out of
    order, also when both images are the same. *)
Theorem diff_fetches_in_order image1 image2
    (mv : @MultiVersionPackageAnalyzer Image PackageInfo World)
    (sv : @SingleVersionPackageAnalyzer Image PackageInfo World) w :
  snd (snd (multi image1 image2 (mv_recording mv) (w, []))) =
    match snd (fst (mv_getPackages mv image1 w)) with
    | Some _ => [image1]
    | None => [image1; image2]
    end /\
  snd (snd (single image1 image2 (sv_recording sv) (w, []))) =
    match snd (fst (sv_getPackages sv image1 w)) with
    | Some _ => [image1]
    | None => [image1; image2]
    end.
Proof.
  split.
  - unfold multiVersionDiff. simpl.
    destruct (mv_getPackages mv image1 w) as [[pack1 [err|]] w1]; [done|].
    destruct (mv_getPackages mv image2 w1) as [[pack2 [err|]] w2]; [done|].
    by destruct (mv_Name mv w2).
  - unfold singleVersionDiff. simpl.
    destruct (sv_getPackages sv image1 w) as [[pack1 [err|]] w1]; [done|].
    destruct (sv_getPackages sv image2 w1) as [[pack2 [err|]] w2]; [done|].
    by destruct (sv_Name sv w2).
Qed.

(** X23: For an analyzer whose name is some label followed by [Analyzer],
    every result that comes with a nil error carries that label. *)
Theorem label_is_name_without_Analyzer image1 image2
    (mv : @MultiVersionPackageAnalyzer Image PackageInfo World)
    (sv : @SingleVersionPackageAnalyzer Image PackageInfo World)
    (mv_label sv_label : string) w :
  (forall w, fst (mv_Name mv w) = mv_label +:+ "Analyzer") ->
  (forall w, fst (sv_Name sv w) = sv_label +:+ "Analyzer") ->
  (forall r w', multi image1 image2 mv w = ((Some r, None), w') ->
                mv_DiffType r = mv_label) /\
  (forall r w', single image1 image2 sv w = ((Some r, None), w') ->
                sv_DiffType r = sv_label) /\
  (forall r w', multiVersionAnalysis Source image1 mv w = ((Some r, None), w') ->
                mv_AnalyzeType r = mv_label) /\
  (forall r w', singleVersionAnalysis Source image1 sv w = ((Some r, None), w') ->
                sv_AnalyzeType r = sv_label).
Proof.
  intros Hmv Hsv. repeat split; intros r w'.
  - unfold multiVersionDiff.
    destruct (mv_getPackages mv image1 w) as [[pack1 [err|]] w1]; [done|].
    destruct (mv_getPackages mv image2 w1) as [[pack2 [err|]] w2]; [done|].
    specialize (Hmv w2). destruct (mv_Name mv w2) as [name w3]. simpl in Hmv. subst name.
    intros [= <- _]. simpl. apply strings_TrimSuffix_app.
  - unfold singleVersionDiff.
    destruct (sv_getPackages sv image1 w) as [[pack1 [err|]] w1]; [done|].
    destruct (sv_getPackages sv image2 w1) as [[pack2 [err|]] w2]; [done|].
    specialize (Hsv w2). destruct (sv_Name sv w2) as [name w3]. simpl in Hsv. subst name.
    intros [= <- _]. simpl. apply strings_TrimSuffix_app.
  - unfold multiVersionAnalysis.
    destruct (mv_getPackages mv image1 w) as [[pack1 [err|]] w1]; [done|].
    specialize (Hmv w1). destruct (mv_Name mv w1) as [name w2]. simpl in Hmv. subst name.
    intros [= <- _]. simpl. apply strings_TrimSuffix_app.
  - unfold singleVersionAnalysis.
    destruct (sv_getPackages sv image1 w) as [[pack1 [err|]] w1]; [done|].
    specialize (Hsv w1). destruct (sv_Name sv w1) as [name w2]. simpl in Hsv. subst name.
    intros [= <- _]. simpl. apply strings_TrimSuffix_app.
Qed.

End PackageAnalysisFacts.

(** ** The properties on concrete disks *)

Lemma disk_walkable files : disk_ok files = true -> walkable (disk files).
Proof.
  intros Hok path. induction files as [|[p n] files IH]; simpl; [done|].
  simpl in Hok. apply andb_prop in Hok as [Hn Hok].
  destruct (String.eqb p path); [|by apply IH].
  by destruct n.
Qed.

(** The directory scenario of the specification. *)
Example DiffDirectory_scenario :
  value (DiffDirectory scenario_disk example_Join example_isTar
           Matches Additions Deletions scenario_d1 scenario_d2) =
  Return ({| Adds := [{| Name := "/d"; Size := 30 |}];
             Dels := [{| Name := "/b"; Size := 20 |}];
             Mods := [] |}, false).
Proof. vm_compute. reflexivity. Qed.

(** C1: the walk of [/img/d] adds the 5 bytes of [a], then fails to
    list [b]; [GetSize] logs the error and returns the 5 bytes added so
    far, neither -1 nor the size of the directory. *)
Theorem GetSize_walk_error_returns_partial_sum :
  GetSize unlistable_disk example_Join "/img/d" =
  (Return 5,
   [EvStat "/img/d"; EvWalk "/img/d";
    EvLog "Could not obtain directory size for /img/d: open /img/d/b: permission denied"]).
Proof. vm_compute. reflexivity. Qed.

(** When the walk meets a name it cannot stat, the walk function is
    called with a nil [FileInfo] and [GetSize] panics. *)
Example GetSize_walk_error_panics :
  GetSize unlistable_disk example_Join "/img/e" =
  (Panic nil_dereference, [EvStat "/img/e"; EvWalk "/img/e"]).
Proof. vm_compute. reflexivity. Qed.

(** C7: between a snapshot without [/e] and one with it, where [/e] is
    a directory in which a name cannot be stat-ed, [DiffDirectory]
    panics in the size lookup of the added entry and returns no
    sequence at all. *)
Theorem DiffDirectory_panics_on_unstatable_entry :
  DiffDirectory unlistable_disk example_Join example_isTar
    Matches Additions Deletions unstatable_d1 unstatable_d2 =
  (Panic nil_dereference, [EvStat "/img/e"; EvWalk "/img/e"]).
Proof. vm_compute. reflexivity. Qed.

(** [/layer.tar]: two archives of 7 bytes with different contents. *)
Lemma archive_entry_classified_by_size_witness :
  stat (example_disk "/old/layer.tar") = Ok (FileInfo.mk false 7) /\
  stat (example_disk "/new/layer.tar") = Ok (FileInfo.mk false 7) /\
  example_isTar "/old/layer.tar" = true /\
  read (example_disk "/old/layer.tar") <> read (example_disk "/new/layer.tar") /\
  exists modified,
    value (GetModifiedEntries example_disk example_isTar Matches example_d1 example_d2) =
    Return modified /\
    ("/layer.tar" ∈ modified <->
     "/layer.tar" ∈ Matches (Content example_d1) (Content example_d2) /\ 7 <> 7).
Proof.
  split; [reflexivity|]. split; [reflexivity|]. split; [reflexivity|].
  split; [discriminate|].
  apply (proj1 (proj2 (archive_entry_classified_by_size
                         example_disk example_isTar Matches example_d1 example_d2
                         "/layer.tar" (FileInfo.mk false 7) (FileInfo.mk false 7)
                         eq_refl eq_refl eq_refl))).
Defined.

(** [/motd]: two files of 5 bytes with different contents. *)
Lemma regular_entry_modified_iff_witness :
  stat (example_disk "/old/motd") = Ok (FileInfo.mk false 5) /\
  stat (example_disk "/new/motd") = Ok (FileInfo.mk false 5) /\
  example_isTar "/old/motd" = false /\
  exists modified,
    value (GetModifiedEntries example_disk example_isTar Matches example_d1 example_d2) =
    Return modified /\
    ("/motd" ∈ modified <->
     "/motd" ∈ Matches (Content example_d1) (Content example_d2) /\
     (5 <> 5 \/
      exists c1 c2, read (example_disk "/old/motd") = Ok c1 /\
                    read (example_disk "/new/motd") = Ok c2 /\ c1 <> c2)).
Proof.
  split; [reflexivity|]. split; [reflexivity|]. split; [reflexivity|].
  apply (proj1 (regular_entry_modified_iff
                  example_disk example_isTar Matches example_d1 example_d2
                  "/motd" (FileInfo.mk false 5) (FileInfo.mk false 5)
                  eq_refl eq_refl eq_refl eq_refl)).
Defined.


(** [/var]: a directory under the first root, a file under the second. *)
Lemma directory_in_first_never_modified_witness :
  stat (example_disk "/old/var") = Ok (FileInfo.mk true 4096) /\
  example_isTar "/old/var" = false /\
  read (example_disk "/new/var") = Ok (bytes "a log") /\
  exists modified,
    value (GetModifiedEntries example_disk example_isTar Matches example_d1 example_d2) =
    Return modified /\
    "/var" ∉ modified.
Proof.
  split; [reflexivity|]. split; [reflexivity|]. split; [reflexivity|].
  apply (proj1 (proj1 (directory_in_first_never_modified
                         example_disk example_isTar Matches example_d1 example_d2
                         "/var" (FileInfo.mk true 4096) eq_refl eq_refl) eq_refl)).
Defined.

(** The two example snapshots differ, and the boolean says so. *)
Lemma DiffDirectory_same_iff_empty_witness :
  walkable example_disk /\
  (exists diff same,
     value (DiffDirectory example_disk example_Join example_isTar
              Matches Additions Deletions example_d1 example_d2) = Return (diff, same)) /\
  (false = true <->
   [{| Name := "/opt"; Size := 42 |}; {| Name := "/zz"; Size := -1 |}] = [] /\
   @nil DirectoryEntry = [] /\
   [{| EntryDiff.Name := "/motd"; EntryDiff.Size1 := 5; EntryDiff.Size2 := 5 |}] = []).
Proof.
  assert (walkable example_disk) as Hfs by (apply disk_walkable; reflexivity).
  split; [exact Hfs|].
  pose proof (DiffDirectory_same_iff_empty example_disk example_Join example_isTar
                Matches Additions Deletions example_d1 example_d2) as [Hret Hsame].
  split; [exact (Hret Hfs)|].
  apply (Hsame (mkDirDiff _ _ _) false). vm_compute. reflexivity.
Defined.


(** The image [broken] as first image of the multi-version diff and
    as second image of the single-version diff. *)
Lemma fetch_failure_returns_zero_value_witness :
  mv_getPackages example_mv "broken" 0%nat =
    ((∅, Some (errorString "cannot read image")), 1%nat) /\
  multiVersionDiff id (0%nat, 0%nat) count_diff "broken" "debian" example_mv 0%nat =
    ((Some (MultiVersionPackageDiffResult_zero (0%nat, 0%nat)),
      Some (errorString "cannot read image")), 1%nat) /\
  sv_getPackages example_sv "debian" 0%nat = ((example_inventory, None), 1%nat) /\
  sv_getPackages example_sv "broken" 1%nat =
    ((∅, Some (errorString "cannot read image")), 2%nat) /\
  singleVersionDiff id (0%nat, 0%nat) count_diff "debian" "broken" example_sv 0%nat =
    ((Some (SingleVersionPackageDiffResult_zero (0%nat, 0%nat)),
      Some (errorString "cannot read image")), 2%nat).
Proof.
  pose proof (fetch_failure_returns_zero_value id (0%nat, 0%nat) (0%nat, 0%nat)
                count_diff count_diff "broken" "debian" example_mv example_sv 0%nat)
    as [[Hmv _] _].
  pose proof (fetch_failure_returns_zero_value id (0%nat, 0%nat) (0%nat, 0%nat)
                count_diff count_diff "debian" "broken" example_mv example_sv 0%nat)
    as [_ [_ [Hsv _]]].
  split; [reflexivity|]. split; [exact (Hmv _ _ _ eq_refl)|].
  split; [reflexivity|]. split; [reflexivity|].
  exact (Hsv _ _ _ _ _ eq_refl eq_refl).
Defined.

(** With [broken] as first image, [debian] is never fetched. *)
Lemma first_failure_skips_second_fetch_witness :
  mv_getPackages example_mv "broken" 0%nat =
    ((∅, Some (errorString "cannot read image")), 1%nat) /\
  snd (multiVersionDiff id (0%nat, 0%nat) count_diff "broken" "debian" example_mv 0%nat) =
    1%nat /\
  snd (multiVersionDiff id (0%nat, 0%nat) count_diff "broken" "debian"
         (mv_recording example_mv) (0%nat, [])) = (1%nat, ["broken"]).
Proof.
  split; [reflexivity|].
  apply (proj1 (first_failure_skips_second_fetch id (0%nat, 0%nat) (0%nat, 0%nat)
                  count_diff count_diff "broken" "debian" example_mv example_sv 0%nat)
           ∅ (errorString "cannot read image") 1%nat eq_refl).
Defined.

(** ** More properties on concrete disks *)

(** The multi-version analysis of an image that cannot be read, and the
    single-version analysis of one that can. *)
Lemma analysis_wraps_the_inventory_witness :
  mv_getPackages example_mv "broken" 0%nat =
    ((∅, Some (errorString "cannot read image")), 1%nat) /\
  multiVersionAnalysis id "broken" example_mv 0%nat =
    ((Some MultiVersionPackageAnalyzeResult_zero,
      Some (errorString "cannot read image")), 1%nat) /\
  sv_getPackages example_sv "debian" 0%nat = ((example_inventory, None), 1%nat) /\
  sv_Name example_sv 1%nat = ("AptAnalyzer", 1%nat) /\
  singleVersionAnalysis id "debian" example_sv 0%nat =
    ((Some {| sv_Image := "debian";
              sv_AnalyzeType := strings_TrimSuffix "AptAnalyzer" "Analyzer";
              sv_Analysis := example_inventory |}, None), 1%nat).
Proof.
  pose proof (analysis_wraps_the_inventory id "broken" example_mv example_sv 0%nat)
    as [[Hmv _] _].
  pose proof (analysis_wraps_the_inventory id "debian" example_mv example_sv 0%nat)
    as [_ [_ [Hsv _]]].
  split; [reflexivity|]. split; [exact (Hmv _ _ _ eq_refl)|].
  split; [reflexivity|]. split; [reflexivity|].
  exact (Hsv _ _ _ _ eq_refl eq_refl).
Defined.

(** [PipAnalyzer] and [AptAnalyzer] give the labels [Pip] and [Apt]. *)
Lemma label_is_name_without_Analyzer_witness :
  (forall w, fst (mv_Name example_mv w) = "Pip" +:+ "Analyzer") /\
  (forall w, fst (sv_Name example_sv w) = "Apt" +:+ "Analyzer") /\
  mv_DiffType <$> fst (fst (multiVersionDiff id (0%nat, 0%nat) count_diff
                              "debian" "ubuntu" example_mv 0%nat)) = Some "Pip" /\
  sv_AnalyzeType <$> fst (fst (singleVersionAnalysis id "debian" example_sv 0%nat)) =
    Some "Apt".
Proof.
  assert (forall w, fst (mv_Name example_mv w) = "Pip" +:+ "Analyzer") as Hmv
    by (intros w; reflexivity).
  assert (forall w, fst (sv_Name example_sv w) = "Apt" +:+ "Analyzer") as Hsv
    by (intros w; reflexivity).
  split; [exact Hmv|]. split; [exact Hsv|].
  pose proof (label_is_name_without_Analyzer id (0%nat, 0%nat) (0%nat, 0%nat)
                count_diff count_diff "debian" "ubuntu" example_mv example_sv
                "Pip" "Apt" 0%nat Hmv Hsv) as (Hmulti & _ & _ & Hsingle).
  split.
  - destruct (multiVersionDiff id (0%nat, 0%nat) count_diff
                "debian" "ubuntu" example_mv 0%nat) as [[[r|] [err|]] w'] eqn:H;
      try discriminate H.
    simpl. f_equal. exact (Hmulti r w' eq_refl).
  - destruct (singleVersionAnalysis id "debian" example_sv 0%nat)
      as [[[r|] [err|]] w'] eqn:H; try discriminate H.
    simpl. f_equal. exact (Hsingle r w' eq_refl).
Defined.

(** The deep listing of [/new/opt]. *)
Lemma GetDirectory_deep_lists_descendants_witness :
  readable (example_disk "/new/opt") = true /\
  join_separates separator_Join "/new/opt" (example_disk "/new/opt") = true /\
  GetDirectory example_disk separator_Join "/new/opt" true =
  Return ({| Root := "/new/opt"; Content := ["/bin"; "/bin/tool"; "/readme"] |}, None).
Proof.
  split; [reflexivity|]. split; [reflexivity|].
  apply (GetDirectory_deep_lists_descendants example_disk separator_Join "/new/opt"
           eq_refl eq_refl).
Defined.

(** [/new/motd] is a file, not a directory. *)
Lemma GetDirectory_of_non_directory_witness :
  (forall size listing children,
     follow (example_disk "/new/motd") <> Folder size listing children) /\
  GetDirectory example_disk separator_Join "/new/motd" true =
  Return ({| Root := "/new/motd"; Content := [] |}, None).
Proof.
  assert (forall size listing children,
            follow (example_disk "/new/motd") <> Folder size listing children) as Hn
    by (intros size listing children; discriminate).
  split; [exact Hn|].
  apply (proj1 (GetDirectory_of_non_directory example_disk separator_Join "/new/motd" Hn)).
Defined.


(** Three copies of a file. *)
Lemma checkSameFile_transitive_witness :
  value (checkSameFile mirror_disk "/a/motd" "/b/motd") = Return (true, None) /\
  value (checkSameFile mirror_disk "/b/motd" "/c/motd") = Return (true, None) /\
  value (checkSameFile mirror_disk "/a/motd" "/c/motd") = Return (true, None).
Proof.
  split; [reflexivity|]. split; [reflexivity|].
  apply (proj1 (checkSameFile_transitive mirror_disk "/a/motd" "/b/motd" "/c/motd"
                  eq_refl eq_refl)).
Defined.

(** [/motd] is a file under both roots of the example. *)
Lemma modified_both_ways_witness :
  stat (example_disk "/old/motd") = Ok (FileInfo.mk false 5) /\
  stat (example_disk "/new/motd") = Ok (FileInfo.mk false 5) /\
  example_isTar "/old/motd" = example_isTar "/new/motd" /\
  exists modified12 modified21,
    value (GetModifiedEntries example_disk example_isTar Matches example_d1 example_d2) =
      Return modified12 /\
    value (GetModifiedEntries example_disk example_isTar Matches example_d2 example_d1) =
      Return modified21 /\
    ("/motd" ∈ modified12 <-> "/motd" ∈ modified21).
Proof.
  split; [reflexivity|]. split; [reflexivity|]. split; [reflexivity|].
  apply (modified_both_ways example_disk example_isTar Matches example_d1 example_d2
           "/motd" (FileInfo.mk false 5) (FileInfo.mk false 5)
           eq_refl eq_refl eq_refl eq_refl).
  - apply elem_of_Matches. split; apply list_elem_of_In; simpl; tauto.
  - apply elem_of_Matches. split; apply list_elem_of_In; simpl; tauto.
Defined.

(** The walk of [/new/opt] adds 12 and 30; the link [/img/link] leads
    to a directory that holds 42 bytes and is itself of size 16. *)
Lemma GetSize_of_walkable_directory_witness :
  readable (example_disk "/new/opt") = true /\
  - 2 ^ 63 <= tree_size (example_disk "/new/opt") < 2 ^ 63 /\
  value (GetSize example_disk separator_Join "/new/opt") = Return 42 /\
  stat (Folder 4096 None [("blob", File 42 (Ok []))]) = Ok (FileInfo.mk true 4096) /\
  GetSize linked_disk separator_Join "/img/link" =
    (Return 16, [EvStat "/img/link"; EvWalk "/img/link"]).
Proof.
  assert (- 2 ^ 63 <= tree_size (example_disk "/new/opt") < 2 ^ 63) as Hrange
    by (change (tree_size (example_disk "/new/opt")) with 42; lia).
  split; [reflexivity|]. split; [exact Hrange|]. split.
  - apply (proj2 (proj1 (GetSize_of_walkable_directory example_disk separator_Join
                           "/new/opt") _ _ _ eq_refl eq_refl) Hrange).
  - split; [reflexivity|].
    apply (proj2 (GetSize_of_walkable_directory linked_disk separator_Join "/img/link")
             16 (Folder 4096 None [("blob", File 42 (Ok []))]) (FileInfo.mk true 4096)
             eq_refl eq_refl eq_refl).
Defined.

(** [/img/d]: the file [a], then the subdirectory [b] that cannot be
    listed, then the file [c]. *)
Lemma GetSize_stops_at_unlistable_directory_witness :
  unlistable_disk "/img/d" =
    Folder 4096 None
      ([("a", File 5 (Ok (bytes "hello")))] ++
       ("b", Folder 4096 (Some "open /img/d/b: permission denied")
               [("x", File 7 (Ok (bytes "private")))])
         :: [("c", File 11 (Ok (bytes "hello world")))]) /\
  value (GetSize unlistable_disk separator_Join "/img/d") = Return 5.
Proof.
  split; [reflexivity|].
  rewrite (proj1 (GetSize_stops_at_unlistable_directory unlistable_disk separator_Join
                    "/img/d" 4096 [("a", File 5 (Ok (bytes "hello")))] "b" 4096
                    "open /img/d/b: permission denied"
                    [("x", File 7 (Ok (bytes "private")))]
                    [("c", File 11 (Ok (bytes "hello world")))] eq_refl eq_refl)).
  reflexivity.
Defined.

(** [/img/e]: the file [a], then the name [b] that cannot be stat-ed. *)
Lemma GetSize_panics_on_unstatable_entry_witness :
  unlistable_disk "/img/e" =
    Folder 4096 None
      ([("a", File 5 (Ok (bytes "hello")))] ++
       ("b", Missing "lstat /img/e/b: permission denied") :: []) /\
  value (GetSize unlistable_disk separator_Join "/img/e") = Panic nil_dereference.
Proof.
  split; [reflexivity|].
  rewrite (GetSize_panics_on_unstatable_entry unlistable_disk separator_Join "/img/e"
             4096 [("a", File 5 (Ok (bytes "hello")))] "b"
             "lstat /img/e/b: permission denied" [] eq_refl eq_refl).
  reflexivity.
Defined.


(** The scenario of the specification, both ways. *)
Lemma DiffDirectory_swap_witness :
  Additions (Content scenario_d1) (Content scenario_d2) ≡ₚ
    Deletions (Content scenario_d2) (Content scenario_d1) /\
  Adds {| Adds := [{| Name := "/d"; Size := 30 |}];
          Dels := [{| Name := "/b"; Size := 20 |}];
          Mods := [] |} =
  Dels {| Adds := [{| Name := "/b"; Size := 20 |}];
          Dels := [{| Name := "/d"; Size := 30 |}];
          Mods := [] |}.
Proof.
  split; [reflexivity|].
  apply (proj1 (DiffDirectory_swap scenario_disk example_Join example_isTar
                  Matches Additions Deletions scenario_d1 scenario_d2
                  (mkDirDiff _ _ _) false (mkDirDiff _ _ _) false
                  (reflexivity _) (reflexivity _) eq_refl eq_refl)).
Defined.

(** [/old/motd] is read, for the matched entry [/motd]. *)
Lemma DiffDirectory_reads_matched_entries_only_witness :
  EvReadFile "/old/motd" ∈
    trace (DiffDirectory example_disk example_Join example_isTar
             Matches Additions Deletions example_d1 example_d2) /\
  exists g,
    g ∈ Matches (Content example_d1) (Content example_d2) /\
    example_isTar (Root example_d1 +:+ g) = false /\
    ("/old/motd" = Root example_d1 +:+ g \/ "/old/motd" = Root example_d2 +:+ g).
Proof.
  assert (EvReadFile "/old/motd" ∈
            trace (DiffDirectory example_disk example_Join example_isTar
                     Matches Additions Deletions example_d1 example_d2)) as Hin.
  { apply list_elem_of_In. vm_compute. repeat first [left; reflexivity|right]. }
  split; [exact Hin|].
  apply (DiffDirectory_reads_matched_entries_only example_disk example_Join example_isTar
           Matches Additions Deletions example_d1 example_d2 "/old/motd" Hin).
Defined.
